(** * Hyperion LP rebalancer: a shallow embedding of [index.ts]

    The rebalancer watches a concentrated-liquidity position, and when the
    pool's tick leaves the position's range it withdraws the liquidity,
    optionally swaps token A for token B, and opens a new position around
    the current tick.

    Modelling conventions.
    - A JavaScript [number] that holds a tick, a fee-tier index or a
      half-width is an integer in the safe range; it is a [Z] here.  On such
      values [Math.floor (a / b)] with [b <> 0] is the floor quotient, which
      is [Z.div].
    - A [bigint] is a [Z]; [x.toString()] of a bigint handed to the SDK is
      kept as the [Z] itself.
    - A value handed to [BigInt(...)] is a [Raw]: it either denotes an
      integer or makes [BigInt] throw.
    - The SDK, the Aptos client and the console are the outside world.  An
      [async] function is a program of type [Prog R]: a finite tree of
      requests to the outside world, run against an [Oracle] that answers
      every request (possibly with a failure) knowing everything that
      happened before. *)

From Stdlib Require Import ZArith List String Ascii Bool Lia QArith.
Import ListNotations.

Local Open Scope string_scope.
Local Open Scope list_scope.
Local Open Scope Z_scope.

Set Implicit Arguments.

(* ================================================================== *)
(** ** Data model (lines 51-79) *)

(** What [bigIntFrom] receives: a [number | string | bigint]. *)
Inductive Raw : Set :=
| Integral (z : Z)      (* BigInt(value) = z *)
| NonIntegral.          (* BigInt(value) throws *)

Module TokenInfo.
Record t : Set := mk {
  assetType : string;
  faType : option string;
  coinType : option string;
  decimals : Z;
  symbol : string
}.
End TokenInfo.

Module IndexedPool.
Record t : Set := mk {
  currentTick : Z;
  feeRate : Raw;
  feeTier : Z;
  poolId : string;
  token1 : string;
  token2 : string;
  token1Info : TokenInfo.t;
  token2Info : TokenInfo.t
}.
End IndexedPool.

Module TickBounds.
Record t : Set := mk { tickLower : Z; tickUpper : Z }.
End TickBounds.

Module IndexedPosition.
Record t : Set := mk {
  objectId : string;
  poolId : string;
  currentAmount : Raw;
  position : TickBounds.t;
  pool : list IndexedPool.t
}.
End IndexedPosition.

(** The object [{ lower, upper }] returned by [computeTickRange]. *)
Record TickRange : Set := { lower : Z; upper : Z }.

(** The [params] argument of [planLiquidity] (lines 148-155). *)
Module PlanParams.
Record t : Set := mk {
  currencyA : string;
  currencyB : string;
  feeTierIndex : Z;
  tickLower : Z;
  tickUpper : Z;
  currentTick : Z
}.
End PlanParams.

(** What [sdk.Swap.estFromAmount] resolves to, as far as the code reads it. *)
Module Quote.
Record t : Set := mk {
  amountIn : Raw;
  amountOut : Raw;
  path : list string
}.
End Quote.

(** The local [swapPlan] of [planLiquidity] (lines 163-169). *)
Module SwapPlan.
Record t : Set := mk {
  amountIn : Z;
  expectedOut : Z;
  path : list string
}.
End SwapPlan.

(** The object returned by [planLiquidity] (lines 232-236); [swapPlan] is
    [None] where the JavaScript field is [undefined]. *)
Record Plan : Set := {
  swapPlan : option SwapPlan.t;
  depositA : Z;
  depositB : Z
}.

(** Opaque values of the SDK and of the Aptos client. *)
Definition Payload : Set := string.
Definition Transaction : Set := string.

Module RemoveLiquidityArgs.
Record t : Set := mk {
  positionId : string;
  currencyA : string;
  currencyB : string;
  currencyAAmount : Z;
  currencyBAmount : Z;
  deltaLiquidity : Z;
  slippage : Q;
  recipient : string
}.
End RemoveLiquidityArgs.

Module SwapArgs.
Record t : Set := mk {
  currencyA : string;
  currencyB : string;
  currencyAAmount : Z;
  currencyBAmount : Z;
  slippage : Q;
  poolRoute : list string;
  recipient : string
}.
End SwapArgs.

Module CreatePoolArgs.
Record t : Set := mk {
  currencyA : string;
  currencyB : string;
  currencyAAmount : Z;
  currencyBAmount : Z;
  feeTierIndex : Z;
  currentPriceTick : Z;
  tickLower : Z;
  tickUpper : Z;
  slippage : Q
}.
End CreatePoolArgs.

(** The module-level constants of [index.ts] (lines 13-44) and the one
    table of the SDK that the code reads.  [FeeTierStep i] is [None] where
    the JavaScript lookup [FeeTierStep[i]] gives [undefined]. *)
Record Globals : Set := {
  FeeTierStep : Z -> option Z;
  MONITORED_OWNER : string;
  TARGET_POOL_ID : string;
  SLIPPAGE_PERCENT : Q;
  POLL_INTERVAL_MS : Z;
  TICK_HALF_WIDTH : Z;
  SWAP_SAFE_MODE : bool;
  OWNER_ADDRESS : string
}.

(* ================================================================== *)
(** ** The outside world *)

(** Exceptions. *)
Inductive Error : Set :=
| Err (message : string)   (* [throw new Error(message)] of this program *)
| BigIntError              (* thrown by [BigInt(value)] *)
| Rejected (reason : string). (* an awaited external call rejected *)

Definition InsufficientBalance : Error :=
  Err "Insufficient currencyA balance to cover swap for rebalancing".

(** The answer of an awaited external call. *)
Inductive result (X : Type) : Type :=
| Ok (x : X)
| Fail (reason : string).
Arguments Ok {X} x.
Arguments Fail {X} reason.

(** The external calls of [index.ts], indexed by what they resolve to.  The
    two estimators resolve to an array of which the code reads only the
    component [1]; that component is the answer here. *)
Inductive ext : Type -> Type :=
| EstCurrencyBAmountFromA (params : PlanParams.t) (currencyAAmount : Z)
    : ext Raw
| EstCurrencyAAmountFromB (params : PlanParams.t) (currencyBAmount : Z)
    : ext Raw
| EstFromAmount (amount : Z) (from to : string) (safeMode : bool)
    : ext Quote.t
| FetchAllPositionsByAddress (address : string)
    : ext (list IndexedPosition.t)
| FetchTokensAmountByPositionId (positionId : string)
    : ext (Raw * Raw)
| RemoveLiquidityTransactionPayload (args : RemoveLiquidityArgs.t)
    : ext Payload
| SwapTransactionPayload (args : SwapArgs.t)
    : ext Payload
| CreatePoolTransactionPayload (args : CreatePoolArgs.t)
    : ext Payload
| BuildSimple (sender : string) (data : Payload)
    : ext Transaction
| SignAndSubmitTransaction (transaction : Transaction)
    : ext string
| WaitForTransaction (transactionHash : string)
    : ext unit.

(** Console lines; a template string is kept as its parts. *)
Inductive Message : Set :=
| Starting
| TxHash (description hash : string)
| NoPoolData (objectId : string)
| RemovingLiquidity (objectId : string) (liquidity : Z)
| Swapping (amountIn : Z) (symbol1 symbol2 : string)
| SkippingAddLiquidity (A B : Z)
| AddingLiquidity (A : Z) (symbol1 : string) (B : Z) (symbol2 : string)
| OutOfRange (objectId : string)
| CycleFailed (error : Error).

(** Effects that resolve to nothing and cannot fail. *)
Inductive Effect : Set :=
| ConsoleInfo (m : Message)
| ConsoleWarn (m : Message)
| ConsoleError (m : Message)
| Sleep (ms : Z).

(** An asynchronous computation that ends with a value of type [R] or with
    an exception. *)
Inductive Prog (R : Type) : Type :=
| Ret (r : R)
| Throw (e : Error)
| Do (e : Effect) (k : Prog R)
| Call (X : Type) (c : ext X) (k : result X -> Prog R).
Arguments Ret {R} r.
Arguments Throw {R} e.
Arguments Do {R} e k.
Arguments Call {R X} c k.

Fixpoint bind {R S : Type} (p : Prog R) (f : R -> Prog S) : Prog S :=
  match p with
  | Ret r => f r
  | Throw e => Throw e
  | Do e k => Do e (bind k f)
  | Call c k => Call c (fun r => bind (k r) f)
  end.

(** [try { p } catch (error) { h error }]. *)
Fixpoint tryCatch {R : Type} (p : Prog R) (h : Error -> Prog R) : Prog R :=
  match p with
  | Ret r => Ret r
  | Throw e => h e
  | Do e k => Do e (tryCatch k h)
  | Call c k => Call c (fun r => tryCatch (k r) h)
  end.

(** [await c]: a rejected call throws. *)
Definition await {X : Type} (c : ext X) : Prog X :=
  Call c (fun r =>
    match r with
    | Ok x => Ret x
    | Fail reason => Throw (Rejected reason)
    end).

Definition perform (e : Effect) : Prog unit := Do e (Ret tt).

Declare Scope prog_scope.
Delimit Scope prog_scope with prog.
Notation "x <- p ;; q" := (bind p (fun x => q))
  (at level 61, p at next level, right associativity) : prog_scope.
Notation "' pat <- p ;; q" := (bind p (fun x => match x with pat => q end))
  (at level 61, pat pattern, p at next level, right associativity)
  : prog_scope.
Notation "p ;; q" := (bind p (fun _ => q))
  (at level 61, right associativity) : prog_scope.
Local Open Scope prog_scope.

(** What the outside world did, in order. *)
Inductive Event : Type :=
| Effected (e : Effect)
| Called (X : Type) (c : ext X) (r : result X).
Arguments Called {X} c r.

Definition Trace : Type := list Event.

(** The outside world: it answers a call knowing all that happened so far. *)
Definition Oracle : Type := Trace -> forall X : Type, ext X -> result X.

Inductive Outcome (R : Type) : Type :=
| Returned (r : R)
| Thrown (e : Error).
Arguments Returned {R} r.
Arguments Thrown {R} e.

(** Running a program from the history [t]: the outcome and the history
    extended with every effect and call made. *)
Fixpoint run {R : Type} (p : Prog R) (o : Oracle) (t : Trace)
  : Outcome R * Trace :=
  match p with
  | Ret r => (Returned r, t)
  | Throw e => (Thrown e, t)
  | Do e k => run k o (t ++ [Effected e])
  | Call c k => let r := o t _ c in run (k r) o (t ++ [Called c r])
  end.

(** All events of a program satisfy [Q], whatever the world answers. *)
Inductive Emits (Q : Event -> bool) {R : Type} : Prog R -> Prop :=
| Emits_Ret r : Emits Q (Ret r)
| Emits_Throw e : Emits Q (Throw e)
| Emits_Do e k : Q (Effected e) = true -> Emits Q k -> Emits Q (Do e k)
| Emits_Call X (c : ext X) k :
    (forall r, Q (Called c r) = true) ->
    (forall r, Emits Q (k r)) ->
    Emits Q (Call c k).

(* ================================================================== *)
(** ** Pure functions *)

(** [bigIntFrom] (lines 85-87). *)
Definition bigIntFrom (value : Raw) : Prog Z :=
  match value with
  | Integral z => Ret z
  | NonIntegral => Throw BigIntError
  end.

(** [normalizeAddress] (lines 89-94).  A string is truthy when non-empty. *)
Definition normalizeAddress (info : option TokenInfo.t) (fallback : string)
  : string :=
  match info with
  | None => fallback
  | Some info =>
      match TokenInfo.coinType info, TokenInfo.faType info with
      | Some (String c s), _ => String c s
      | _, Some (String c s) => String c s
      | _, _ => TokenInfo.assetType info
      end
  end.

(** [isOutOfRange] (lines 137-143). *)
Definition isOutOfRange (position : IndexedPosition.t) (pool : IndexedPool.t)
  : bool :=
  let currentTick := IndexedPool.currentTick pool in
  (currentTick <=? TickBounds.tickLower (IndexedPosition.position position))
  || (currentTick >=? TickBounds.tickUpper (IndexedPosition.position position)).

(** [computeTickRange] (lines 96-109). *)
Definition computeTickRange (G : Globals)
  (currentTick feeTierIndex halfWidth : Z) : TickRange :=
  let spacing :=
    match FeeTierStep G feeTierIndex with Some s => s | None => 1 end in
  let rounded := currentTick / spacing * spacing in
  let lower := rounded - halfWidth * spacing in
  let upper := rounded + halfWidth * spacing in
  if lower =? upper
  then {| lower := rounded - spacing; upper := rounded + spacing |}
  else {| lower := lower; upper := upper |}.

(** [s.toLowerCase()] on the ASCII letters, which is all an address has. *)
Definition lowerAscii (c : ascii) : ascii :=
  let n := nat_of_ascii c in
  if ((65 <=? n) && (n <=? 90))%nat then ascii_of_nat (n + 32) else c.

Fixpoint toLowerCase (s : string) : string :=
  match s with
  | EmptyString => EmptyString
  | String c s' => String (lowerAscii c) (toLowerCase s')
  end.

(* ================================================================== *)
(** ** Asynchronous functions *)

(** [submitTransaction] (lines 111-126). *)
Definition submitTransaction (G : Globals) (payload : Payload)
  (description : string) : Prog string :=
  transaction <- await (BuildSimple (OWNER_ADDRESS G) payload);;
  committed <- await (SignAndSubmitTransaction transaction);;
  await (WaitForTransaction committed);;
  perform (ConsoleInfo (TxHash description committed));;
  Ret committed.

(** [fetchPositions] (lines 128-135). *)
Definition fetchPositions (G : Globals) : Prog (list IndexedPosition.t) :=
  result <- await (FetchAllPositionsByAddress (MONITORED_OWNER G));;
  Ret (filter
         (fun position =>
            String.eqb (toLowerCase (IndexedPosition.poolId position))
                       (toLowerCase (TARGET_POOL_ID G)))
         result).

(** [planLiquidity] (lines 145-237).  The three variables assigned inside
    the first [if], [swapPlan], [workingA] and [workingB], leave it as a
    triple. *)
Definition planLiquidity (G : Globals) (availableA availableB : Z)
  (params : PlanParams.t) (allowSwap : bool) : Prog Plan :=
  let workingA := availableA in
  let workingB := availableB in
  estimateFromA <- await (EstCurrencyBAmountFromA params workingA);;
  requiredB <- bigIntFrom estimateFromA;;
  '(swapPlan, workingA, workingB) <-
    (if allowSwap && (requiredB >? workingB) then
       let shortfall := requiredB - workingB in
       quote <- await (EstFromAmount shortfall
                         (PlanParams.currencyA params)
                         (PlanParams.currencyB params)
                         (SWAP_SAFE_MODE G));;
       amountIn <- bigIntFrom (Quote.amountIn quote);;
       amountOut <- bigIntFrom (Quote.amountOut quote);;
       if amountIn >=? workingA then Throw InsufficientBalance
       else Ret (Some (SwapPlan.mk amountIn amountOut (Quote.path quote)),
                 workingA - amountIn,
                 workingB + amountOut)
     else Ret (None, workingA, workingB));;
  postSwapEstimate <- await (EstCurrencyBAmountFromA params workingA);;
  depositB <- bigIntFrom postSwapEstimate;;
  if depositB >? workingB then
    adjust <- await (EstCurrencyAAmountFromB params workingB);;
    depositA <- bigIntFrom adjust;;
    Ret {| swapPlan := swapPlan; depositA := depositA; depositB := workingB |}
  else
    Ret {| swapPlan := swapPlan; depositA := workingA; depositB := depositB |}.

(** [rebalance] (lines 239-339) is cut into its consecutive blocks. *)

(** Lines 246-255 and 282-289: [baseParams]. *)
Definition baseParams (G : Globals) (pool : IndexedPool.t) : PlanParams.t :=
  let feeTierIndex := IndexedPool.feeTier pool in
  let currentTick := IndexedPool.currentTick pool in
  let range := computeTickRange G currentTick feeTierIndex (TICK_HALF_WIDTH G) in
  let currencyA :=
    normalizeAddress (Some (IndexedPool.token1Info pool))
                     (IndexedPool.token1 pool) in
  let currencyB :=
    normalizeAddress (Some (IndexedPool.token2Info pool))
                     (IndexedPool.token2 pool) in
  PlanParams.mk currencyA currencyB feeTierIndex
                (lower range) (upper range) currentTick.

(** Lines 257-280: read the withdrawable amounts and remove the liquidity;
    the block leaves [availableA] and [availableB]. *)
Definition withdrawLiquidity (G : Globals) (position : IndexedPosition.t)
  (params : PlanParams.t) : Prog (Z * Z) :=
  '(rawA, rawB) <-
    await (FetchTokensAmountByPositionId (IndexedPosition.objectId position));;
  availableA <- bigIntFrom rawA;;
  availableB <- bigIntFrom rawB;;
  deltaLiquidity <- bigIntFrom (IndexedPosition.currentAmount position);;
  (if (deltaLiquidity >? 0) && ((availableA >? 0) || (availableB >? 0)) then
     perform (ConsoleInfo (RemovingLiquidity
                             (IndexedPosition.objectId position)
                             deltaLiquidity));;
     removePayload <-
       await (RemoveLiquidityTransactionPayload
                (RemoveLiquidityArgs.mk
                   (IndexedPosition.objectId position)
                   (PlanParams.currencyA params)
                   (PlanParams.currencyB params)
                   availableA availableB deltaLiquidity
                   (SLIPPAGE_PERCENT G) (OWNER_ADDRESS G)));;
     submitTransaction G removePayload "remove-liquidity";;
     Ret tt
   else Ret tt);;
  Ret (availableA, availableB).

(** Lines 297-310: the body of [if (initialPlan.swapPlan)] up to the
    confirmation of the swap. *)
Definition executeSwap (G : Globals) (pool : IndexedPool.t)
  (params : PlanParams.t) (swap : SwapPlan.t) : Prog string :=
  perform (ConsoleInfo (Swapping
                          (SwapPlan.amountIn swap)
                          (TokenInfo.symbol (IndexedPool.token1Info pool))
                          (TokenInfo.symbol (IndexedPool.token2Info pool))));;
  swapPayload <-
    await (SwapTransactionPayload
             (SwapArgs.mk
                (PlanParams.currencyA params)
                (PlanParams.currencyB params)
                (SwapPlan.amountIn swap)
                (SwapPlan.expectedOut swap)
                (SLIPPAGE_PERCENT G)
                (SwapPlan.path swap)
                (OWNER_ADDRESS G)));;
  submitTransaction G swapPayload "swap".

(** Lines 257-314: everything up to the final value of [plan]. *)
Definition finalPlan (G : Globals) (position : IndexedPosition.t)
  (pool : IndexedPool.t) : Prog Plan :=
  let params := baseParams G pool in
  '(availableA, availableB) <- withdrawLiquidity G position params;;
  initialPlan <- planLiquidity G availableA availableB params true;;
  match swapPlan initialPlan with
  | Some swap =>
      executeSwap G pool params swap;;
      let postSwapA := availableA - SwapPlan.amountIn swap in
      let postSwapB := availableB + SwapPlan.expectedOut swap in
      planLiquidity G postSwapA postSwapB params false
  | None => Ret initialPlan
  end.

(** Lines 316-338: the zero-amount guard and the deposit. *)
Definition addLiquidity (G : Globals) (pool : IndexedPool.t)
  (params : PlanParams.t) (plan : Plan) : Prog unit :=
  if (depositA plan =? 0) || (depositB plan =? 0) then
    perform (ConsoleWarn (SkippingAddLiquidity (depositA plan) (depositB plan)))
  else
    perform (ConsoleInfo (AddingLiquidity
                            (depositA plan)
                            (TokenInfo.symbol (IndexedPool.token1Info pool))
                            (depositB plan)
                            (TokenInfo.symbol (IndexedPool.token2Info pool))));;
    addPayload <-
      await (CreatePoolTransactionPayload
               (CreatePoolArgs.mk
                  (PlanParams.currencyA params)
                  (PlanParams.currencyB params)
                  (depositA plan) (depositB plan)
                  (PlanParams.feeTierIndex params)
                  (PlanParams.currentTick params)
                  (PlanParams.tickLower params)
                  (PlanParams.tickUpper params)
                  (SLIPPAGE_PERCENT G)));;
    submitTransaction G addPayload "add-liquidity";;
    Ret tt.

(** [rebalance] (lines 239-339); [position.pool[0]] is the head of the
    list, [undefined] when the list is empty. *)
Definition rebalance (G : Globals) (position : IndexedPosition.t)
  : Prog unit :=
  match IndexedPosition.pool position with
  | [] => perform (ConsoleWarn (NoPoolData (IndexedPosition.objectId position)))
  | pool :: _ =>
      plan <- finalPlan G position pool;;
      addLiquidity G pool (baseParams G pool) plan
  end.

(** The body of the [for] loop of [main] (lines 347-356); [continue] ends
    the body. *)
Definition processPosition (G : Globals) (position : IndexedPosition.t)
  : Prog unit :=
  match IndexedPosition.pool position with
  | [] => Ret tt
  | pool :: _ =>
      currentAmount <- bigIntFrom (IndexedPosition.currentAmount position);;
      if currentAmount =? 0 then Ret tt
      else if isOutOfRange position pool then
        perform (ConsoleInfo (OutOfRange (IndexedPosition.objectId position)));;
        rebalance G position
      else Ret tt
  end.

(** [for (const x of xs) body]. *)
Fixpoint forOf {X : Type} (xs : list X) (body : X -> Prog unit) : Prog unit :=
  match xs with
  | [] => Ret tt
  | x :: xs' => body x;; forOf xs' body
  end.

(** One turn of the [while (true)] loop of [main] (lines 344-361). *)
Definition pollCycle (G : Globals) : Prog unit :=
  tryCatch
    (positions <- fetchPositions G;;
     forOf positions (processPosition G))
    (fun error => perform (ConsoleError (CycleFailed error)));;
  perform (Sleep (POLL_INTERVAL_MS G)).

(** [main] (lines 341-363) never returns; these are its first [n] turns. *)
Fixpoint pollCycles (G : Globals) (n : nat) : Prog unit :=
  match n with
  | O => Ret tt
  | S n' => pollCycle G;; pollCycles G n'
  end.

Definition main (G : Globals) (n : nat) : Prog unit :=
  perform (ConsoleInfo Starting);;
  pollCycles G n.

(* ================================================================== *)
(** ** Vocabulary of the properties *)

(** The working balances of [planLiquidity] when it returns [plan]: the
    available balances, moved by the swap if one was planned. *)
Definition workingA (availableA : Z) (plan : Plan) : Z :=
  match swapPlan plan with
  | Some swap => availableA - SwapPlan.amountIn swap
  | None => availableA
  end.

Definition workingB (availableB : Z) (plan : Plan) : Z :=
  match swapPlan plan with
  | Some swap => availableB + SwapPlan.expectedOut swap
  | None => availableB
  end.

(** Kinds of events. *)
Definition isEstimate (e : Event) : bool :=
  match e with
  | Called (EstCurrencyBAmountFromA _ _) _ => true
  | Called (EstCurrencyAAmountFromB _ _) _ => true
  | _ => false
  end.

Definition isQuote (e : Event) : bool :=
  match e with
  | Called (EstFromAmount _ _ _ _) _ => true
  | _ => false
  end.

Definition isPlanning (e : Event) : bool := isEstimate e || isQuote e.

(** A step of the deposit: the request for its payload, or one of the two
    console lines around it. *)
Definition isDepositStep (e : Event) : bool :=
  match e with
  | Called (CreatePoolTransactionPayload _) _ => true
  | Effected (ConsoleInfo (AddingLiquidity _ _ _ _)) => true
  | Effected (ConsoleInfo (TxHash description _)) =>
      String.eqb description "add-liquidity"
  | _ => false
  end.

Definition notDepositStep (e : Event) : bool := negb (isDepositStep e).

(** A request for the payload of a swap. *)
Definition isSwapRequest (e : Event) : bool :=
  match e with
  | Called (SwapTransactionPayload _) _ => true
  | _ => false
  end.

(** A request to sign and submit a transaction. *)
Definition isSubmission (e : Event) : bool :=
  match e with
  | Called (SignAndSubmitTransaction _) _ => true
  | _ => false
  end.

(** A read of a position's withdrawable amounts. *)
Definition isFetchAmounts (e : Event) : bool :=
  match e with
  | Called (FetchTokensAmountByPositionId _) _ => true
  | _ => false
  end.

(** A console line. *)
Definition isConsole (e : Event) : bool :=
  match e with
  | Effected (ConsoleInfo _) => true
  | Effected (ConsoleWarn _) => true
  | Effected (ConsoleError _) => true
  | _ => false
  end.

Definition notConsole (e : Event) : bool := negb (isConsole e).

Definition isSleep (e : Event) : bool :=
  match e with
  | Effected (Sleep _) => true
  | _ => false
  end.

Definition notSleep (e : Event) : bool := negb (isSleep e).

Definition anyEvent (e : Event) : bool := true.

(** What [rebalance] may do for a position: everything but fetching the
    list of positions, sleeping, and the console lines of [main]. *)
Definition isRebalanceStep (e : Event) : bool :=
  match e with
  | Called (FetchAllPositionsByAddress _) _ => false
  | Effected (Sleep _) => false
  | Effected (ConsoleError _) => false
  | Effected (ConsoleInfo Starting) => false
  | Effected (ConsoleInfo (OutOfRange _)) => false
  | _ => true
  end.

(** A request for the payload of a deposit is well formed for [pool] when
    both amounts are non-zero and the range and the tick are those that
    [rebalance] computes for the pool; any other event is. *)
Definition depositRequestOk (G : Globals) (pool : IndexedPool.t) (e : Event)
  : bool :=
  match e with
  | Called (CreatePoolTransactionPayload args) _ =>
      negb (CreatePoolArgs.currencyAAmount args =? 0)
      && negb (CreatePoolArgs.currencyBAmount args =? 0)
      && (CreatePoolArgs.tickLower args
          =? lower (computeTickRange G (IndexedPool.currentTick pool)
                                     (IndexedPool.feeTier pool)
                                     (TICK_HALF_WIDTH G)))
      && (CreatePoolArgs.tickUpper args
          =? upper (computeTickRange G (IndexedPool.currentTick pool)
                                     (IndexedPool.feeTier pool)
                                     (TICK_HALF_WIDTH G)))
      && (CreatePoolArgs.currentPriceTick args
          =? IndexedPool.currentTick pool)
      && (CreatePoolArgs.feeTierIndex args =? IndexedPool.feeTier pool)
  | _ => true
  end.

(** On every path of a program, at most [n] events satisfy [Q]. *)
Inductive AtMost (Q : Event -> bool) {R : Type} : nat -> Prog R -> Prop :=
| AtMost_Ret n r : AtMost Q n (Ret r)
| AtMost_Throw n e : AtMost Q n (Throw e)
| AtMost_Do_hit n e k : AtMost Q n k -> AtMost Q (S n) (Do e k)
| AtMost_Do_miss n e k :
    Q (Effected e) = false -> AtMost Q n k -> AtMost Q n (Do e k)
| AtMost_Call_hit n X (c : ext X) k :
    (forall r, AtMost Q n (k r)) -> AtMost Q (S n) (Call c k)
| AtMost_Call_miss n X (c : ext X) k :
    (forall r, Q (Called c r) = false) ->
    (forall r, AtMost Q n (k r)) ->
    AtMost Q n (Call c k).

(* ================================================================== *)
(** ** Example data *)

(** A fee-tier table with four tiers. *)
Definition exampleFeeTierStep (i : Z) : option Z :=
  match i with
  | 0 => Some 1
  | 1 => Some 10
  | 2 => Some 60
  | 3 => Some 200
  | _ => None
  end.

Definition exampleGlobals : Globals := {|
  FeeTierStep := exampleFeeTierStep;
  MONITORED_OWNER := "0xEB4C";
  TARGET_POOL_ID := "0x1609";
  SLIPPAGE_PERCENT := 1 # 10;
  POLL_INTERVAL_MS := 60000;
  TICK_HALF_WIDTH := 10;
  SWAP_SAFE_MODE := true;
  OWNER_ADDRESS := "0xeb4c"
|}.

Definition usd1 : TokenInfo.t :=
  TokenInfo.mk "0xa1" (Some "0xfa1") None 6 "USD1".

Definition usdc : TokenInfo.t :=
  TokenInfo.mk "0xb2" None (Some "0xc2::coin::USDC") 6 "USDC".

(** A pool at tick 500 in the tier of spacing 10. *)
Definition examplePool : IndexedPool.t :=
  IndexedPool.mk 500 (Integral 500) 1 "0x1609" "0xa1" "0xb2" usd1 usdc.

(** A position on [450, 480], left behind by the pool's tick. *)
Definition examplePosition : IndexedPosition.t :=
  IndexedPosition.mk "0xp1" "0x1609" (Integral 12345)
                     (TickBounds.mk 450 480) [examplePool].

(** The same position without its pool snapshot. *)
Definition orphanPosition : IndexedPosition.t :=
  IndexedPosition.mk "0xp2" "0x1609" (Integral 12345)
                     (TickBounds.mk 450 480) [].

Definition exampleParams : PlanParams.t := baseParams exampleGlobals examplePool.

(** A world with a steady price of one B for two A, where the position
    holds 1000 A and no B, and 300 A buy 500 B. *)
Definition steadyOracle : Oracle :=
  fun _ X c =>
    match c in ext X return result X with
    | EstCurrencyBAmountFromA _ a => Ok (Integral (a / 2))
    | EstCurrencyAAmountFromB _ b => Ok (Integral (2 * b))
    | EstFromAmount _ _ _ _ =>
        Ok (Quote.mk (Integral 300) (Integral 500) ["0x1609"])
    | FetchAllPositionsByAddress _ => Ok [examplePosition; orphanPosition]
    | FetchTokensAmountByPositionId _ => Ok (Integral 1000, Integral 0)
    | RemoveLiquidityTransactionPayload _ => Ok "remove"
    | SwapTransactionPayload _ => Ok "swap"
    | CreatePoolTransactionPayload _ => Ok "create"
    | BuildSimple _ data => Ok data
    | SignAndSubmitTransaction transaction => Ok ("0x" ++ transaction)%string
    | WaitForTransaction _ => Ok tt
    end.

(** The same world, except that the whole A balance is asked for the swap. *)
Definition greedyOracle : Oracle :=
  fun t X c =>
    match c in ext X return result X with
    | EstFromAmount _ _ _ _ =>
        Ok (Quote.mk (Integral 1000) (Integral 500) ["0x1609"])
    | c' => steadyOracle t c'
    end.

(** A world whose price moves while a plan is made: B is estimated at two
    B for one A, then A at two A for one B. *)
Definition driftingOracle : Oracle :=
  fun t X c =>
    match c in ext X return result X with
    | EstCurrencyBAmountFromA _ a => Ok (Integral (2 * a))
    | EstCurrencyAAmountFromB _ b => Ok (Integral (2 * b))
    | c' => steadyOracle t c'
    end.

(** A world where the range needs no B at all. *)
Definition oneSidedOracle : Oracle :=
  fun t X c =>
    match c in ext X return result X with
    | EstCurrencyBAmountFromA _ _ => Ok (Integral 0)
    | c' => steadyOracle t c'
    end.

(** The steady world, except that no transaction is ever confirmed. *)
Definition stuckOracle : Oracle :=
  fun t X c =>
    match c in ext X return result X with
    | WaitForTransaction _ => Fail "timeout"
    | c' => steadyOracle t c'
    end.

(** The steady world, except that the list of positions cannot be read. *)
Definition offlineOracle : Oracle :=
  fun t X c =>
    match c in ext X return result X with
    | FetchAllPositionsByAddress _ => Fail "offline"
    | c' => steadyOracle t c'
    end.

(** A position whose liquidity is not an integer. *)
Definition brokenPosition : IndexedPosition.t :=
  IndexedPosition.mk "0xp5" "0x1609" NonIntegral
                     (TickBounds.mk 450 480) [examplePool].

(** A position that holds the pool's tick. *)
Definition activePosition : IndexedPosition.t :=
  IndexedPosition.mk "0xp6" "0x1609" (Integral 12345)
                     (TickBounds.mk 400 600) [examplePool].

(* ================================================================== *)
(** ** Running programs *)

(** One step of a run: name the answer of the next call, the value of the
    next conversion, or the side of the next branch. *)
Ltac run_step o :=
  match goal with
  | |- context [o ?t ?X ?c] =>
      let r := fresh "r" in
      let Hr := fresh "Hcall" in
      destruct (o t X c) as [r | ?] eqn:Hr; simpl
  | |- context [bigIntFrom ?v] => destruct v; simpl
  | |- context [if ?b then _ else _] =>
      let Hb := fresh "Hif" in destruct b eqn:Hb; simpl
  end.

Lemma run_bind (R S : Type) (p : Prog R) (f : R -> Prog S) (o : Oracle)
  (t : Trace) :
  run (bind p f) o t =
  match run p o t with
  | (Returned r, t') => run (f r) o t'
  | (Thrown e, t') => (Thrown e, t')
  end.
Proof.
  revert t.
  induction p as [r | e | e k IH | X c k IH]; intros t; simpl; auto.
Qed.

Lemma run_tryCatch (R : Type) (p : Prog R) (h : Error -> Prog R)
  (o : Oracle) (t : Trace) :
  run (tryCatch p h) o t =
  match run p o t with
  | (Returned r, t') => (Returned r, t')
  | (Thrown e, t') => run (h e) o t'
  end.
Proof.
  revert t.
  induction p as [r | e | e k IH | X c k IH]; intros t; simpl; auto.
Qed.

(** The history only grows. *)
Lemma run_extends (R : Type) (p : Prog R) (o : Oracle) (t : Trace) :
  exists d, snd (run p o t) = t ++ d.
Proof.
  revert t.
  induction p as [r | e | e k IH | X c k IH]; intros t; simpl.
  - exists []. now rewrite app_nil_r.
  - exists []. now rewrite app_nil_r.
  - destruct (IH (t ++ [Effected e])) as [d Hd].
    exists (Effected e :: d). now rewrite Hd, <- app_assoc.
  - destruct (IH (o t X c) (t ++ [Called c (o t X c)])) as [d Hd].
    exists (Called c (o t X c) :: d). now rewrite Hd, <- app_assoc.
Qed.

(** A program that emits only events of one kind adds only such events. *)
Lemma run_emits (Q : Event -> bool) (R : Type) (p : Prog R) :
  Emits Q p ->
  forall (o : Oracle) (t : Trace),
  exists d, snd (run p o t) = t ++ d /\ forallb Q d = true.
Proof.
  induction 1 as [r | e | e k HQ Hk IH | X c k HQ Hk IH]; intros o t; simpl.
  - exists []. now rewrite app_nil_r.
  - exists []. now rewrite app_nil_r.
  - destruct (IH o (t ++ [Effected e])) as [d [Hd Hall]].
    exists (Effected e :: d). rewrite Hd, <- app_assoc. simpl.
    now rewrite HQ, Hall.
  - destruct (IH (o t X c) o (t ++ [Called c (o t X c)])) as [d [Hd Hall]].
    exists (Called c (o t X c) :: d). rewrite Hd, <- app_assoc. simpl.
    now rewrite HQ, Hall.
Qed.

Lemma Emits_bind (Q : Event -> bool) (R S : Type) (p : Prog R)
  (f : R -> Prog S) :
  Emits Q p -> (forall r, Emits Q (f r)) -> Emits Q (bind p f).
Proof.
  induction 1; intros Hf; simpl; try constructor; auto.
Qed.

Lemma Emits_await (Q : Event -> bool) (X : Type) (c : ext X) :
  (forall r, Q (Called c r) = true) -> Emits Q (await c).
Proof.
  intros HQ. constructor; auto.
  intros [x | reason]; constructor.
Qed.

Lemma Emits_bigIntFrom (Q : Event -> bool) (value : Raw) :
  Emits Q (bigIntFrom value).
Proof. destruct value; constructor. Qed.

Lemma Emits_weaken (Q Q' : Event -> bool) (R : Type) (p : Prog R) :
  (forall e, Q e = true -> Q' e = true) -> Emits Q p -> Emits Q' p.
Proof.
  intros HQ. induction 1; constructor; auto.
Qed.

(* ================================================================== *)
(** ** RangeCalculator *)

(** The end-to-end scenario of the specification: tick 500, spacing 10 and
    half-width 10 give the range [400, 600]. *)
Example computeTickRange_scenario :
  computeTickRange exampleGlobals 500 1 10 = {| lower := 400; upper := 600 |}.
Proof. reflexivity. Qed.

Example computeTickRange_negative_tick :
  computeTickRange exampleGlobals (-7) 1 2 = {| lower := -30; upper := 10 |}.
Proof. reflexivity. Qed.

(** The anchor of a range: the current tick snapped down to the spacing. *)
Lemma rounded_is_floor (currentTick spacing : Z) :
  0 < spacing ->
  let rounded := currentTick / spacing * spacing in
  (spacing | rounded) /\ rounded <= currentTick < rounded + spacing.
Proof.
  intros Hs rounded. subst rounded. split.
  - apply Z.divide_factor_r.
  - pose proof (Z.mul_div_le currentTick spacing Hs).
    pose proof (Z.mul_succ_div_gt currentTick spacing Hs).
    lia.
Qed.

(** C3. With a fee tier of spacing [spacing > 0] and a half-width
    [halfWidth > 0], [computeTickRange] returns
    [lower = rounded - halfWidth * spacing] and
    [upper = rounded + halfWidth * spacing], where [rounded] is the current
    tick snapped down to a multiple of the spacing; then [lower < upper],
    both bounds are multiples of the spacing, and [rounded] lies in
    [[lower, upper]].  The range is a function of the three arguments and
    of the table alone, so repeated calls agree. *)
Theorem computeTickRange_spec (G : Globals)
  (currentTick feeTierIndex halfWidth spacing : Z) :
  FeeTierStep G feeTierIndex = Some spacing ->
  0 < spacing ->
  0 < halfWidth ->
  let rounded := currentTick / spacing * spacing in
  let range := computeTickRange G currentTick feeTierIndex halfWidth in
  (spacing | rounded) /\
  (rounded <= currentTick < rounded + spacing) /\
  lower range = rounded - halfWidth * spacing /\
  upper range = rounded + halfWidth * spacing /\
  lower range < upper range /\
  (spacing | lower range) /\
  (spacing | upper range) /\
  lower range <= rounded <= upper range.
Proof.
  intros Hstep Hs Hw rounded range.
  destruct (rounded_is_floor currentTick Hs) as [Hdiv Hfloor].
  fold rounded in Hdiv, Hfloor.
  assert (Hpos : 0 < halfWidth * spacing) by nia.
  assert (Hrange : range = {| lower := rounded - halfWidth * spacing;
                              upper := rounded + halfWidth * spacing |}).
  { subst range. unfold computeTickRange. rewrite Hstep. fold rounded.
    destruct (Z.eqb_spec (rounded - halfWidth * spacing)
                         (rounded + halfWidth * spacing)); [lia | reflexivity]. }
  rewrite Hrange. simpl.
  split; [exact Hdiv | ].
  split; [exact Hfloor | ].
  repeat split; try lia.
  - apply Z.divide_sub_r; [exact Hdiv | apply Z.divide_factor_r].
  - apply Z.divide_add_r; [exact Hdiv | apply Z.divide_factor_r].
Qed.

Lemma computeTickRange_spec_witness :
  let range := computeTickRange exampleGlobals 507 1 10 in
  (10 | 500) /\
  (500 <= 507 < 510) /\
  lower range = 400 /\ upper range = 600 /\
  lower range < upper range /\
  (10 | lower range) /\ (10 | upper range) /\
  lower range <= 500 <= upper range.
Proof.
  exact (@computeTickRange_spec exampleGlobals 507 1 10 10
           eq_refl eq_refl eq_refl).
Defined.

(** C7. With a fee tier of spacing [spacing > 0] and a half-width of zero,
    [computeTickRange] returns exactly [(rounded - spacing, rounded +
    spacing)]; its bounds are never equal. *)
Theorem computeTickRange_degenerate (G : Globals)
  (currentTick feeTierIndex spacing : Z) :
  FeeTierStep G feeTierIndex = Some spacing ->
  0 < spacing ->
  let rounded := currentTick / spacing * spacing in
  let range := computeTickRange G currentTick feeTierIndex 0 in
  range = {| lower := rounded - spacing; upper := rounded + spacing |} /\
  lower range <> upper range.
Proof.
  intros Hstep Hs rounded range.
  assert (Hrange : range = {| lower := rounded - spacing;
                              upper := rounded + spacing |}).
  { subst range. unfold computeTickRange. rewrite Hstep. fold rounded.
    replace (rounded - 0 * spacing) with rounded by lia.
    replace (rounded + 0 * spacing) with rounded by lia.
    now rewrite Z.eqb_refl. }
  rewrite Hrange. simpl. split; [reflexivity | lia].
Qed.

Lemma computeTickRange_degenerate_witness :
  let range := computeTickRange exampleGlobals 507 1 0 in
  range = {| lower := 500 - 10; upper := 500 + 10 |} /\
  lower range <> upper range.
Proof.
  exact (@computeTickRange_degenerate exampleGlobals 507 1 10
           eq_refl eq_refl).
Defined.

(** C9, as the specification states it, fails: with no table entry and a
    half-width of zero the range is not [(currentTick - 0, currentTick + 0)]. *)
Lemma computeTickRange_unknown_tier_counterexample :
  FeeTierStep exampleGlobals 7 = None /\
  computeTickRange exampleGlobals 500 7 0 = {| lower := 499; upper := 501 |} /\
  computeTickRange exampleGlobals 500 7 0 <>
    {| lower := 500 - 0; upper := 500 + 0 |}.
Proof.
  repeat split. discriminate.
Qed.

(** C9, amended. For a fee-tier index with no table entry the spacing falls
    back to 1 and nothing fails: with a non-zero half-width the range is
    [(currentTick - halfWidth, currentTick + halfWidth)], and with a
    half-width of zero the degenerate-range guard gives
    [(currentTick - 1, currentTick + 1)]. *)
Theorem computeTickRange_unknown_tier (G : Globals)
  (currentTick feeTierIndex halfWidth : Z) :
  FeeTierStep G feeTierIndex = None ->
  computeTickRange G currentTick feeTierIndex halfWidth =
  if halfWidth =? 0
  then {| lower := currentTick - 1; upper := currentTick + 1 |}
  else {| lower := currentTick - halfWidth;
          upper := currentTick + halfWidth |}.
Proof.
  intros Hstep. unfold computeTickRange. rewrite Hstep.
  rewrite Z.div_1_r, !Z.mul_1_r.
  destruct (Z.eqb_spec halfWidth 0) as [-> | Hw].
  - now rewrite Z.sub_0_r, Z.add_0_r, Z.eqb_refl.
  - destruct (Z.eqb_spec (currentTick - halfWidth) (currentTick + halfWidth));
      [lia | reflexivity].
Qed.

Lemma computeTickRange_unknown_tier_witness :
  computeTickRange exampleGlobals 500 7 10 = {| lower := 490; upper := 510 |}.
Proof.
  exact (@computeTickRange_unknown_tier exampleGlobals 500 7 10 eq_refl).
Defined.

(* ================================================================== *)
(** ** The out-of-range predicate *)

Example isOutOfRange_boundaries :
  let at_tick tick :=
    isOutOfRange
      (IndexedPosition.mk "0xp" "0x1609" (Integral 1) (TickBounds.mk 100 200) [])
      (IndexedPool.mk tick (Integral 500) 1 "0x1609" "0xa1" "0xb2" usd1 usdc) in
  at_tick 100 = true /\ at_tick 150 = false /\ at_tick 200 = true /\
  at_tick 99 = true /\ at_tick 201 = true.
Proof. repeat split. Qed.

(** C4. [isOutOfRange] is true exactly when the pool's current tick is at
    or below the position's lower tick, or at or above its upper tick; so
    it is true at either boundary and false strictly inside the range. *)
Theorem isOutOfRange_spec (position : IndexedPosition.t)
  (pool : IndexedPool.t) :
  let tick := IndexedPool.currentTick pool in
  let tickLower := TickBounds.tickLower (IndexedPosition.position position) in
  let tickUpper := TickBounds.tickUpper (IndexedPosition.position position) in
  (isOutOfRange position pool = true <->
     tick <= tickLower \/ tick >= tickUpper) /\
  (isOutOfRange position pool = false <-> tickLower < tick < tickUpper).
Proof.
  unfold isOutOfRange. cbv zeta.
  set (tick := IndexedPool.currentTick pool).
  set (lo := TickBounds.tickLower (IndexedPosition.position position)).
  set (hi := TickBounds.tickUpper (IndexedPosition.position position)).
  rewrite orb_true_iff, orb_false_iff.
  rewrite Z.leb_le, Z.geb_le, Z.leb_gt.
  assert (Hge : (tick >=? hi) = false <-> tick < hi).
  { rewrite Z.geb_leb. apply Z.leb_gt. }
  rewrite Hge. split; lia.
Qed.

(* ================================================================== *)
(** ** LiquidityPlanner *)

(** The second end-to-end scenario of the specification: 1000 A and no B,
    500 B required, 300 A quoted for 500 B; the plan records the swap and
    deposits the working balances [700] and at most [500]. *)
Example planLiquidity_scenario :
  fst (run (planLiquidity exampleGlobals 1000 0 exampleParams true)
           steadyOracle []) =
  Returned {| swapPlan := Some (SwapPlan.mk 300 500 ["0x1609"]);
              depositA := 700; depositB := 350 |}.
Proof. reflexivity. Qed.

Lemma planLiquidity_emits (G : Globals) (A B : Z) (params : PlanParams.t)
  (allowSwap : bool) :
  Emits isPlanning (planLiquidity G A B params allowSwap).
Proof.
  unfold planLiquidity.
  repeat first
    [ apply Emits_bigIntFrom
    | apply Emits_await; reflexivity
    | apply Emits_bind; [ | intros ]
    | match goal with
      | |- Emits _ (if ?b then _ else _) => destruct b
      | |- Emits _ (match ?x with (_, _) => _ end) => destruct x
      end
    | constructor ].
Qed.

Lemma planLiquidity_without_swap_emits (G : Globals) (A B : Z)
  (params : PlanParams.t) :
  Emits isEstimate (planLiquidity G A B params false).
Proof.
  unfold planLiquidity. cbn [andb].
  repeat first
    [ apply Emits_bigIntFrom
    | apply Emits_await; reflexivity
    | apply Emits_bind; [ | intros ]
    | match goal with
      | |- Emits _ (if ?b then _ else _) => destruct b
      | |- Emits _ (match ?x with (_, _) => _ end) => destruct x
      end
    | constructor ].
Qed.

(** C8. With [allowSwap = false], whatever the balances and whatever the
    outside world answers, a plan returned by [planLiquidity] has no
    [swapPlan]; the quote service is not even asked. *)
Theorem planLiquidity_without_swap (G : Globals) (o : Oracle) (t : Trace)
  (A B : Z) (params : PlanParams.t) (plan : Plan) (t' : Trace) :
  run (planLiquidity G A B params false) o t = (Returned plan, t') ->
  swapPlan plan = None /\
  exists d, t' = t ++ d /\ forallb isEstimate d = true.
Proof.
  intros Hrun. split.
  - revert Hrun. unfold planLiquidity. simpl.
    repeat run_step o.
    all: intros H; inversion H; reflexivity.
  - destruct (run_emits (planLiquidity_without_swap_emits G A B params) o t)
      as [d [Hd Hall]].
    rewrite Hrun in Hd. simpl in Hd. now exists d.
Qed.

Lemma planLiquidity_without_swap_witness :
  swapPlan {| swapPlan := None; depositA := 6; depositB := 3 |} = None /\
  exists d,
    snd (run (planLiquidity exampleGlobals 6 5 exampleParams false)
             steadyOracle []) = [] ++ d /\
    forallb isEstimate d = true.
Proof.
  exact (@planLiquidity_without_swap exampleGlobals steadyOracle [] 6 5
           exampleParams _ _ eq_refl).
Defined.

(** With [allowSwap = false] a plan is returned as soon as the estimator
    answers with integers. *)
Lemma planLiquidity_without_swap_returns (G : Globals) (o : Oracle)
  (t : Trace) (A B : Z) (params : PlanParams.t) :
  (forall h a, exists z,
      o h _ (EstCurrencyBAmountFromA params a) = Ok (Integral z)) ->
  (forall h b, exists z,
      o h _ (EstCurrencyAAmountFromB params b) = Ok (Integral z)) ->
  exists plan t',
    run (planLiquidity G A B params false) o t = (Returned plan, t').
Proof.
  intros HB HA. unfold planLiquidity. simpl.
  destruct (HB t A) as [z1 ->]. simpl.
  match goal with |- context [o ?h _ (EstCurrencyBAmountFromA params A)] =>
    destruct (HB h A) as [z2 ->] end. simpl.
  destruct (z2 >? B) eqn:Hcap; simpl.
  - match goal with |- context [o ?h _ (EstCurrencyAAmountFromB params B)] =>
      destruct (HA h B) as [z3 ->] end. simpl. eauto.
  - eauto.
Qed.

(** C1, as the specification states it, fails: when the price drifts while
    the plan is made, the A side of the plan exceeds the working A
    balance.  Of 1000 A, 300 go into the swap, and the plan deposits
    1000. *)
Lemma planLiquidity_deposit_counterexample :
  let plan := {| swapPlan := Some (SwapPlan.mk 300 500 ["0x1609"]);
                 depositA := 1000; depositB := 500 |} in
  fst (run (planLiquidity exampleGlobals 1000 0 exampleParams true)
           driftingOracle []) = Returned plan /\
  workingA 1000 plan = 700 /\
  ~ (depositA plan <= workingA 1000 plan).
Proof.
  cbv zeta. split; [reflexivity | split; [reflexivity | ]].
  unfold workingA. simpl. lia.
Qed.

(** C1, amended. In every plan that [planLiquidity] returns, [depositB]
    does not exceed the working B balance.  The last thing the planner
    asks before it decides is the B amount that matches the working A
    balance.  When that estimate fits the working B balance, [depositA] is
    the working A balance, [depositB] is the estimate, and nothing else is
    asked.  Otherwise [depositB] is the working B balance, the planner
    asks next for the A amount that matches it, and [depositA] is that
    answer, taken as it comes: it stays within the working A balance
    exactly when the answer does. *)
Theorem planLiquidity_deposit_bounds (G : Globals) (o : Oracle) (t : Trace)
  (A B : Z) (params : PlanParams.t) (allowSwap : bool) (plan : Plan)
  (t' : Trace) :
  run (planLiquidity G A B params allowSwap) o t = (Returned plan, t') ->
  let reestimate := EstCurrencyBAmountFromA params (workingA A plan) in
  let adjust := EstCurrencyAAmountFromB params (workingB B plan) in
  depositB plan <= workingB B plan /\
  exists (h : Trace) (estimatedB : Z),
    o h _ reestimate = Ok (Integral estimatedB) /\
    (estimatedB <= workingB B plan ->
     depositA plan = workingA A plan /\
     depositB plan = estimatedB /\
     t' = h ++ [Called reestimate (Ok (Integral estimatedB))]) /\
    (workingB B plan < estimatedB ->
     depositB plan = workingB B plan /\
     o (h ++ [Called reestimate (Ok (Integral estimatedB))]) _ adjust =
       Ok (Integral (depositA plan)) /\
     t' = h ++ [Called reestimate (Ok (Integral estimatedB));
                Called adjust (Ok (Integral (depositA plan)))]).
Proof.
  unfold planLiquidity. simpl.
  repeat run_step o.
  all: intros H; inversion H; subst; clear H.
  all: unfold workingA, workingB; cbn [swapPlan depositA depositB
                                       SwapPlan.amountIn SwapPlan.expectedOut].
  all: repeat match goal with
              | H : (_ >? _) = true |- _ => apply Z.gtb_lt in H
              | H : (_ >? _) = false |- _ =>
                  rewrite Z.gtb_ltb in H; apply Z.ltb_ge in H
              end.
  all: split; [lia | ].
  all: match goal with
       | Hre : _ ?h _ (EstCurrencyBAmountFromA _ _) = Ok (Integral ?z) |- _ =>
           exists h, z; split; [exact Hre | ];
           split; intros Hcase;
           solve [ lia
                 | repeat split; try reflexivity; try lia;
                   try assumption; rewrite <- ?app_assoc; reflexivity ]
       end.
Qed.

Lemma planLiquidity_deposit_bounds_witness :
  let plan := {| swapPlan := Some (SwapPlan.mk 300 500 ["0x1609"]);
                 depositA := 700; depositB := 350 |} in
  let reestimate := EstCurrencyBAmountFromA exampleParams 700 in
  let adjust := EstCurrencyAAmountFromB exampleParams 500 in
  350 <= 500 /\
  exists (h : Trace) (estimatedB : Z),
    @steadyOracle h _ reestimate = Ok (Integral estimatedB) /\
    (estimatedB <= 500 ->
     700 = 700 /\
     350 = estimatedB /\
     snd (run (planLiquidity exampleGlobals 1000 0 exampleParams true)
              steadyOracle []) =
     h ++ [Called reestimate (Ok (Integral estimatedB))]) /\
    (500 < estimatedB ->
     350 = 500 /\
     @steadyOracle (h ++ [Called reestimate (Ok (Integral estimatedB))]) _
                   adjust = Ok (Integral 700) /\
     snd (run (planLiquidity exampleGlobals 1000 0 exampleParams true)
              steadyOracle []) =
     h ++ [Called reestimate (Ok (Integral estimatedB));
           Called adjust (Ok (Integral 700))]).
Proof.
  exact (@planLiquidity_deposit_bounds exampleGlobals steadyOracle [] 1000 0
           exampleParams true
           {| swapPlan := Some (SwapPlan.mk 300 500 ["0x1609"]);
              depositA := 700; depositB := 350 |} _ eq_refl).
Defined.

(** The insufficient-balance error comes from the shortfall correction
    only: swaps are allowed, the first estimate exceeds the B balance, and
    the quote asks for the whole A balance or more. *)
Lemma planLiquidity_insufficient_only_if (G : Globals) (o : Oracle)
  (t : Trace) (A B : Z) (params : PlanParams.t) (allowSwap : bool) :
  fst (run (planLiquidity G A B params allowSwap) o t) =
    Thrown InsufficientBalance ->
  allowSwap = true /\
  exists requiredB quote amountIn,
    o t _ (EstCurrencyBAmountFromA params A) = Ok (Integral requiredB) /\
    requiredB > B /\
    o (t ++ [Called (EstCurrencyBAmountFromA params A)
                    (Ok (Integral requiredB))]) _
      (EstFromAmount (requiredB - B)
                     (PlanParams.currencyA params)
                     (PlanParams.currencyB params)
                     (SWAP_SAFE_MODE G)) = Ok quote /\
    Quote.amountIn quote = Integral amountIn /\
    amountIn >= A.
Proof.
  unfold planLiquidity. simpl.
  destruct (o t _ (EstCurrencyBAmountFromA params A))
    as [[requiredB | ] | ] eqn:Hest; simpl; try discriminate.
  destruct allowSwap; simpl.
  - destruct (requiredB >? B) eqn:Hshort; simpl.
    + match goal with |- context [o ?h _ (EstFromAmount ?a ?f ?g ?s)] =>
        destruct (o h _ (EstFromAmount a f g s)) as [quote | ] eqn:Hquote
      end; simpl; try discriminate.
      destruct (Quote.amountIn quote) as [amountIn | ] eqn:Hin; simpl;
        try discriminate.
      destruct (Quote.amountOut quote) as [amountOut | ] eqn:Hout; simpl;
        try discriminate.
      destruct (amountIn >=? A) eqn:Hge; simpl.
      * intros _. split; [reflexivity | ].
        exists requiredB, quote, amountIn.
        repeat split; auto.
        -- apply Z.gtb_lt in Hshort. lia.
        -- rewrite Z.geb_leb in Hge. apply Z.leb_le in Hge. lia.
      * repeat run_step o; discriminate.
    + repeat run_step o; discriminate.
  - repeat run_step o; discriminate.
Qed.

(** C2. Let swaps be allowed, let the estimator require more B than is
    available, and let the quote for the shortfall carry the amounts
    [amountIn] and [amountOut].  If [amountIn >= availableA],
    [planLiquidity] throws the insufficient-balance error right after the
    quote and returns no plan; if [amountIn < availableA], it does not
    throw that error. *)
Theorem planLiquidity_insufficient_balance (G : Globals) (o : Oracle)
  (t : Trace) (A B : Z) (params : PlanParams.t)
  (requiredB : Z) (quote : Quote.t) (amountIn amountOut : Z) :
  let asked := EstCurrencyBAmountFromA params A in
  let quoted := EstFromAmount (requiredB - B)
                              (PlanParams.currencyA params)
                              (PlanParams.currencyB params)
                              (SWAP_SAFE_MODE G) in
  let t1 := t ++ [Called asked (Ok (Integral requiredB))] in
  o t _ asked = Ok (Integral requiredB) ->
  requiredB > B ->
  o t1 _ quoted = Ok quote ->
  Quote.amountIn quote = Integral amountIn ->
  Quote.amountOut quote = Integral amountOut ->
  (amountIn >= A ->
   run (planLiquidity G A B params true) o t =
   (Thrown InsufficientBalance, t1 ++ [Called quoted (Ok quote)])) /\
  (amountIn < A ->
   fst (run (planLiquidity G A B params true) o t) <>
   Thrown InsufficientBalance).
Proof.
  intros asked quoted t1 Hest Hshort Hquote Hin Hout. split.
  - intros Hge. unfold planLiquidity. simpl.
    fold asked. rewrite Hest. simpl. fold t1.
    assert (Hgt : (requiredB >? B) = true) by (apply Z.gtb_lt; lia).
    rewrite Hgt. simpl. fold quoted. rewrite Hquote. simpl.
    rewrite Hin, Hout. simpl.
    assert (Hgeb : (amountIn >=? A) = true)
      by (rewrite Z.geb_leb; apply Z.leb_le; lia).
    now rewrite Hgeb.
  - intros Hlt Hthrown.
    apply planLiquidity_insufficient_only_if in Hthrown.
    destruct Hthrown as [_ (requiredB' & quote' & amountIn' & H1 & _ & H2 & H3 & H4)].
    fold asked in H1. rewrite Hest in H1. inversion H1; subst requiredB'.
    fold asked t1 quoted in H2. rewrite Hquote in H2.
    inversion H2; subst quote'.
    rewrite Hin in H3. inversion H3. lia.
Qed.

Lemma planLiquidity_insufficient_balance_witness :
  run (planLiquidity exampleGlobals 1000 0 exampleParams true)
      greedyOracle [] =
  (Thrown InsufficientBalance,
   [Called (EstCurrencyBAmountFromA exampleParams 1000) (Ok (Integral 500));
    Called (EstFromAmount 500 "0xfa1" "0xc2::coin::USDC" true)
           (Ok (Quote.mk (Integral 1000) (Integral 500) ["0x1609"]))]).
Proof.
  refine (proj1 (@planLiquidity_insufficient_balance exampleGlobals
                   greedyOracle [] 1000 0 exampleParams 500
                   (Quote.mk (Integral 1000) (Integral 500) ["0x1609"])
                   1000 500 eq_refl eq_refl eq_refl eq_refl eq_refl) _).
  lia.
Defined.

(* ================================================================== *)
(** ** RebalanceOrchestrator *)

(** The third end-to-end scenario of the specification has a final plan
    with an empty side; here the range needs no B, and [rebalance] stops at
    the warning after the withdrawal. *)
Example rebalance_scenario_one_sided :
  run (rebalance exampleGlobals examplePosition) oneSidedOracle [] =
  (Returned tt,
   [Called (FetchTokensAmountByPositionId "0xp1")
           (Ok (Integral 1000, Integral 0));
    Effected (ConsoleInfo (RemovingLiquidity "0xp1" 12345));
    Called (RemoveLiquidityTransactionPayload
              (RemoveLiquidityArgs.mk "0xp1" "0xfa1" "0xc2::coin::USDC"
                                      1000 0 12345 (1 # 10) "0xeb4c"))
           (Ok "remove");
    Called (BuildSimple "0xeb4c" "remove") (Ok "remove");
    Called (SignAndSubmitTransaction "remove") (Ok "0xremove");
    Called (WaitForTransaction "0xremove") (Ok tt);
    Effected (ConsoleInfo (TxHash "remove-liquidity" "0xremove"));
    Called (EstCurrencyBAmountFromA exampleParams 1000) (Ok (Integral 0));
    Called (EstCurrencyBAmountFromA exampleParams 1000) (Ok (Integral 0));
    Effected (ConsoleWarn (SkippingAddLiquidity 1000 0))]).
Proof. reflexivity. Qed.

Lemma submitTransaction_emits (G : Globals) (payload : Payload)
  (description : string) :
  String.eqb description "add-liquidity" = false ->
  Emits notDepositStep (submitTransaction G payload description).
Proof.
  intros Hdesc. unfold submitTransaction, perform.
  repeat first
    [ apply Emits_await; reflexivity
    | apply Emits_bind; [ | intros ]
    | constructor ].
  unfold notDepositStep. simpl. now rewrite Hdesc.
Qed.

Lemma withdrawLiquidity_emits (G : Globals) (position : IndexedPosition.t)
  (params : PlanParams.t) :
  Emits notDepositStep (withdrawLiquidity G position params).
Proof.
  unfold withdrawLiquidity, perform.
  repeat first
    [ apply Emits_bigIntFrom
    | apply Emits_await; reflexivity
    | apply submitTransaction_emits; reflexivity
    | apply Emits_bind; [ | intros ]
    | match goal with
      | |- Emits _ (if ?b then _ else _) => destruct b
      | |- Emits _ (match ?x with (_, _) => _ end) => destruct x
      end
    | constructor ].
Qed.

Lemma executeSwap_emits (G : Globals) (pool : IndexedPool.t)
  (params : PlanParams.t) (swap : SwapPlan.t) :
  Emits notDepositStep (executeSwap G pool params swap).
Proof.
  unfold executeSwap, perform.
  repeat first
    [ apply Emits_await; reflexivity
    | apply submitTransaction_emits; reflexivity
    | apply Emits_bind; [ | intros ]
    | constructor ].
Qed.

Lemma planning_not_deposit (e : Event) :
  isPlanning e = true -> notDepositStep e = true.
Proof.
  destruct e as [e | X c r]; [discriminate | ].
  destruct c; simpl; auto; discriminate.
Qed.

Lemma finalPlan_emits (G : Globals) (position : IndexedPosition.t)
  (pool : IndexedPool.t) :
  Emits notDepositStep (finalPlan G position pool).
Proof.
  unfold finalPlan.
  apply Emits_bind; [apply withdrawLiquidity_emits | ].
  intros [availableA availableB].
  apply Emits_bind.
  { apply Emits_weaken with (Q := isPlanning);
      [exact planning_not_deposit | apply planLiquidity_emits]. }
  intros initialPlan.
  destruct (swapPlan initialPlan) as [swap | ]; [ | constructor].
  apply Emits_bind; [apply executeSwap_emits | intros _].
  apply Emits_weaken with (Q := isPlanning);
    [exact planning_not_deposit | apply planLiquidity_emits].
Qed.

(** C5. When the initial plan carries a swap and the swap has been
    submitted and confirmed, the rest of [rebalance]'s planning is one
    call of [planLiquidity] on [availableA - amountIn] and
    [availableB + expectedOut] with [allowSwap = false]: from the
    confirmation on, the outside world is asked for estimates only, so the
    balances are not fetched again and no quote is requested. *)
Theorem finalPlan_after_swap (G : Globals) (o : Oracle) (t : Trace)
  (position : IndexedPosition.t) (pool : IndexedPool.t)
  (availableA availableB : Z) (t1 : Trace)
  (initialPlan : Plan) (swap : SwapPlan.t) (t2 : Trace)
  (hash : string) (t3 : Trace) :
  let params := baseParams G pool in
  run (withdrawLiquidity G position params) o t
    = (Returned (availableA, availableB), t1) ->
  run (planLiquidity G availableA availableB params true) o t1
    = (Returned initialPlan, t2) ->
  swapPlan initialPlan = Some swap ->
  run (executeSwap G pool params swap) o t2 = (Returned hash, t3) ->
  run (finalPlan G position pool) o t =
  run (planLiquidity G (availableA - SwapPlan.amountIn swap)
                       (availableB + SwapPlan.expectedOut swap)
                       params false) o t3 /\
  exists d,
    snd (run (finalPlan G position pool) o t) = t3 ++ d /\
    forallb isEstimate d = true.
Proof.
  intros params Hwithdraw Hplan Hswap Hexec.
  assert (Hfinal :
    run (finalPlan G position pool) o t =
    run (planLiquidity G (availableA - SwapPlan.amountIn swap)
                         (availableB + SwapPlan.expectedOut swap)
                         params false) o t3).
  { unfold finalPlan. fold params.
    rewrite run_bind, Hwithdraw.
    rewrite run_bind, Hplan.
    rewrite Hswap.
    now rewrite run_bind, Hexec. }
  split; [exact Hfinal | ].
  rewrite Hfinal.
  apply run_emits, planLiquidity_without_swap_emits.
Qed.

Lemma finalPlan_after_swap_witness :
  exists t3,
    run (finalPlan exampleGlobals examplePosition examplePool)
        steadyOracle [] =
    run (planLiquidity exampleGlobals (1000 - 300) (0 + 500)
                       exampleParams false) steadyOracle t3 /\
    exists d,
      snd (run (finalPlan exampleGlobals examplePosition examplePool)
               steadyOracle []) = t3 ++ d /\
      forallb isEstimate d = true.
Proof.
  eexists.
  exact (@finalPlan_after_swap exampleGlobals steadyOracle []
           examplePosition examplePool 1000 0 _ _
           (SwapPlan.mk 300 500 ["0x1609"]) _ _ _
           eq_refl eq_refl eq_refl eq_refl).
Defined.

(** C6. When the final plan has [depositA = 0] or [depositB = 0],
    [rebalance] returns normally: after the plan it only writes the
    warning, and no step of a deposit occurs anywhere in its run. *)
Theorem rebalance_skips_empty_deposit (G : Globals) (o : Oracle) (t : Trace)
  (position : IndexedPosition.t) (pool : IndexedPool.t)
  (rest : list IndexedPool.t) (plan : Plan) (t' : Trace) :
  IndexedPosition.pool position = pool :: rest ->
  run (finalPlan G position pool) o t = (Returned plan, t') ->
  depositA plan = 0 \/ depositB plan = 0 ->
  run (rebalance G position) o t =
  (Returned tt,
   t' ++ [Effected (ConsoleWarn
                      (SkippingAddLiquidity (depositA plan) (depositB plan)))])
  /\
  exists d,
    snd (run (rebalance G position) o t) = t ++ d /\
    forallb notDepositStep d = true.
Proof.
  intros Hpool Hplan Hzero.
  assert (Hguard : (depositA plan =? 0) || (depositB plan =? 0) = true).
  { apply orb_true_iff. rewrite !Z.eqb_eq. exact Hzero. }
  assert (Hrun :
    run (rebalance G position) o t =
    (Returned tt,
     t' ++ [Effected (ConsoleWarn
                        (SkippingAddLiquidity (depositA plan) (depositB plan)))])).
  { unfold rebalance. rewrite Hpool, run_bind, Hplan.
    unfold addLiquidity. now rewrite Hguard. }
  split; [exact Hrun | ].
  destruct (run_emits (finalPlan_emits G position pool) o t) as [d [Hd Hall]].
  rewrite Hplan in Hd. simpl in Hd.
  exists (d ++ [Effected (ConsoleWarn
                  (SkippingAddLiquidity (depositA plan) (depositB plan)))]).
  rewrite Hrun. simpl. rewrite Hd, <- app_assoc. split; [reflexivity | ].
  rewrite forallb_app, Hall. reflexivity.
Qed.

Lemma rebalance_skips_empty_deposit_witness :
  let plan := {| swapPlan := None; depositA := 1000; depositB := 0 |} in
  exists t',
    run (rebalance exampleGlobals examplePosition) oneSidedOracle [] =
    (Returned tt, t' ++ [Effected (ConsoleWarn (SkippingAddLiquidity 1000 0))])
    /\
    exists d,
      snd (run (rebalance exampleGlobals examplePosition) oneSidedOracle [])
      = [] ++ d /\
      forallb notDepositStep d = true.
Proof.
  eexists.
  refine (@rebalance_skips_empty_deposit exampleGlobals oneSidedOracle []
            examplePosition examplePool []
            {| swapPlan := None; depositA := 1000; depositB := 0 |} _
            eq_refl eq_refl _).
  right. reflexivity.
Defined.

(* ================================================================== *)
(** ** PositionMonitor *)

(** One cycle over the example positions: the first is rebalanced, with a
    swap and a deposit; the second, which has no pool snapshot, leaves no
    event after the first one's [add-liquidity] line. *)
Example pollCycle_scenario :
  let t := snd (run (pollCycle exampleGlobals) steadyOracle []) in
  fst (run (pollCycle exampleGlobals) steadyOracle []) = Returned tt /\
  List.length t = 27%nat /\
  nth_error t 1 = Some (Effected (ConsoleInfo (OutOfRange "0xp1"))) /\
  nth_error t 25 =
    Some (Effected (ConsoleInfo (TxHash "add-liquidity" "0xcreate"))) /\
  nth_error t 26 = Some (Effected (Sleep 60000)).
Proof. vm_compute. repeat split. Qed.

(** X24. A cycle never throws: whatever fails inside it is caught and logged,
    and the cycle ends with its sleep. *)
Lemma pollCycle_returns (G : Globals) (o : Oracle) (t : Trace) :
  exists d,
    run (pollCycle G) o t =
    (Returned tt, t ++ d ++ [Effected (Sleep (POLL_INTERVAL_MS G))]).
Proof.
  unfold pollCycle. rewrite run_bind, run_tryCatch.
  set (body := positions <- fetchPositions G;;
               forOf positions (processPosition G)).
  destruct (run_extends body o t) as [d Hd].
  destruct (run body o t) as [[[] | e] t1]; simpl in Hd; subst t1; simpl.
  - exists d. now rewrite <- app_assoc.
  - exists (d ++ [Effected (ConsoleError (CycleFailed e))]).
    now rewrite <- !app_assoc.
Qed.

(** C10. A position whose pool list is empty causes no action: [rebalance]
    called on it writes one warning and returns, with no call to the
    outside world, and the loop over the fetched positions runs exactly
    as if the position were not in the list. *)
Theorem position_without_pool_ignored (G : Globals) (o : Oracle)
  (position : IndexedPosition.t) :
  IndexedPosition.pool position = [] ->
  (forall t,
     run (rebalance G position) o t =
     (Returned tt,
      t ++ [Effected (ConsoleWarn
                        (NoPoolData (IndexedPosition.objectId position)))])) /\
  (forall before after t,
     run (forOf (before ++ position :: after) (processPosition G)) o t =
     run (forOf (before ++ after) (processPosition G)) o t).
Proof.
  intros Hpool. split.
  - intros t. unfold rebalance. now rewrite Hpool.
  - intros before after.
    induction before as [ | first before IH]; intros t; simpl.
    + unfold processPosition at 1. now rewrite Hpool.
    + rewrite !run_bind.
      destruct (run (processPosition G first) o t) as [[[] | e] t1];
        [apply IH | reflexivity].
Qed.

Lemma position_without_pool_ignored_witness :
  run (rebalance exampleGlobals orphanPosition) steadyOracle [] =
  (Returned tt, [] ++ [Effected (ConsoleWarn (NoPoolData "0xp2"))]) /\
  run (forOf ([examplePosition] ++ orphanPosition :: [examplePosition])
             (processPosition exampleGlobals)) steadyOracle [] =
  run (forOf ([examplePosition] ++ [examplePosition])
             (processPosition exampleGlobals)) steadyOracle [].
Proof.
  destruct (@position_without_pool_ignored exampleGlobals steadyOracle
              orphanPosition eq_refl) as [Hrebalance Hloop].
  split; [apply Hrebalance | apply Hloop].
Defined.

(* ================================================================== *)
(** ** Further properties: addresses, ranges and the predicate *)

(** The spacing [computeTickRange] works with: the table entry, or 1. *)
Lemma computeTickRange_unfold (G : Globals)
  (currentTick feeTierIndex halfWidth : Z) :
  let spacing :=
    match FeeTierStep G feeTierIndex with Some s => s | None => 1 end in
  let rounded := currentTick / spacing * spacing in
  computeTickRange G currentTick feeTierIndex halfWidth =
  if halfWidth * spacing =? 0
  then {| lower := rounded - spacing; upper := rounded + spacing |}
  else {| lower := rounded - halfWidth * spacing;
          upper := rounded + halfWidth * spacing |}.
Proof.
  intros spacing rounded. unfold computeTickRange.
  fold spacing. fold rounded.
  destruct (Z.eqb_spec (rounded - halfWidth * spacing)
                       (rounded + halfWidth * spacing));
    destruct (Z.eqb_spec (halfWidth * spacing) 0); try reflexivity; lia.
Qed.

Lemma computeTickRange_inside (G : Globals)
  (currentTick feeTierIndex halfWidth : Z) :
  let spacing :=
    match FeeTierStep G feeTierIndex with Some s => s | None => 1 end in
  let range := computeTickRange G currentTick feeTierIndex halfWidth in
  0 < spacing ->
  0 <= halfWidth ->
  lower range < currentTick < upper range.
Proof.
  intros spacing range Hs Hw. subst range.
  rewrite computeTickRange_unfold. fold spacing.
  destruct (rounded_is_floor currentTick Hs) as [_ Hfloor].
  set (rounded := currentTick / spacing * spacing) in *.
  destruct (Z.eqb_spec (halfWidth * spacing) 0) as [Hzero | Hnonzero];
    cbn [lower upper].
  - lia.
  - assert (1 <= halfWidth) by nia.
    assert (spacing <= halfWidth * spacing) by nia.
    lia.
Qed.

(** X1. [normalizeAddress] treats an empty [coinType] or [faType] like a
    missing one, ignores the fallback as soon as the token info is there,
    and returns a non-empty address whenever [assetType] is non-empty. *)
Theorem normalizeAddress_edges (info : TokenInfo.t) (fallback : string) :
  let blank (s : option string) := s = None \/ s = Some "" in
  normalizeAddress None fallback = fallback /\
  (forall c, TokenInfo.coinType info = Some c -> c <> "" ->
             normalizeAddress (Some info) fallback = c) /\
  (forall f, blank (TokenInfo.coinType info) ->
             TokenInfo.faType info = Some f -> f <> "" ->
             normalizeAddress (Some info) fallback = f) /\
  (blank (TokenInfo.coinType info) -> blank (TokenInfo.faType info) ->
   normalizeAddress (Some info) fallback = TokenInfo.assetType info) /\
  (TokenInfo.assetType info <> "" ->
   normalizeAddress (Some info) fallback <> "").
Proof.
  intros blank. subst blank. unfold normalizeAddress.
  destruct info as [asset fa coin dec sym]; simpl.
  repeat split.
  - intros c -> Hc. destruct c; [contradiction | reflexivity].
  - intros f [-> | ->] -> Hf; (destruct f; [contradiction | reflexivity]).
  - intros [-> | ->] [-> | ->]; reflexivity.
  - intros Hasset.
    destruct coin as [[ | ] | ]; destruct fa as [[ | ] | ];
      try exact Hasset; discriminate.
Qed.

(** X2. For a spacing above zero (a table entry, or the fallback 1) and a
    half-width that is not negative, the range of [computeTickRange]
    holds the current tick strictly inside, its bounds are multiples of
    the spacing, and its width is [2 * max halfWidth 1 * spacing]. *)
Theorem computeTickRange_contains_tick (G : Globals)
  (currentTick feeTierIndex halfWidth : Z) :
  let spacing :=
    match FeeTierStep G feeTierIndex with Some s => s | None => 1 end in
  let range := computeTickRange G currentTick feeTierIndex halfWidth in
  0 < spacing ->
  0 <= halfWidth ->
  lower range < currentTick < upper range /\
  (spacing | lower range) /\
  (spacing | upper range) /\
  upper range - lower range = 2 * Z.max halfWidth 1 * spacing.
Proof.
  intros spacing range Hs Hw. subst range.
  rewrite computeTickRange_unfold. fold spacing.
  destruct (rounded_is_floor currentTick Hs) as [Hdiv Hfloor].
  set (rounded := currentTick / spacing * spacing) in *.
  assert (Hone : (spacing | spacing)) by apply Z.divide_refl.
  assert (Hmul : (spacing | halfWidth * spacing)) by apply Z.divide_factor_r.
  destruct (Z.eqb_spec (halfWidth * spacing) 0) as [Hzero | Hnonzero];
    cbn [lower upper].
  - assert (halfWidth = 0) by nia. subst halfWidth.
    change (Z.max 0 1) with 1.
    repeat split; try lia.
    + now apply Z.divide_sub_r.
    + now apply Z.divide_add_r.
  - assert (1 <= halfWidth) by nia.
    assert (spacing <= halfWidth * spacing) by nia.
    rewrite Z.max_l by lia.
    repeat split; try lia.
    + now apply Z.divide_sub_r.
    + now apply Z.divide_add_r.
Qed.

Lemma computeTickRange_contains_tick_witness :
  let range := computeTickRange exampleGlobals (-7) 9 0 in
  lower range < -7 < upper range /\
  (1 | lower range) /\ (1 | upper range) /\
  upper range - lower range = 2 * Z.max 0 1 * 1.
Proof.
  exact (@computeTickRange_contains_tick exampleGlobals (-7) 9 0
           eq_refl (Z.le_refl 0)).
Defined.

(** X3. A position opened on the range that [rebalance] computes for a pool is
    not out of range at that pool's tick: a rebalance does not call for
    the next one by itself. *)
Theorem rebalanced_position_in_range (G : Globals) (pool : IndexedPool.t)
  (position : IndexedPosition.t) :
  let spacing :=
    match FeeTierStep G (IndexedPool.feeTier pool) with
    | Some s => s
    | None => 1
    end in
  0 < spacing ->
  0 <= TICK_HALF_WIDTH G ->
  IndexedPosition.position position =
    TickBounds.mk (PlanParams.tickLower (baseParams G pool))
                  (PlanParams.tickUpper (baseParams G pool)) ->
  isOutOfRange position pool = false.
Proof.
  intros spacing Hs Hw Hbounds.
  destruct (@computeTickRange_inside G (IndexedPool.currentTick pool)
              (IndexedPool.feeTier pool) (TICK_HALF_WIDTH G) Hs Hw)
    as [Hlo Hhi].
  unfold isOutOfRange. rewrite Hbounds. simpl.
  apply orb_false_iff. split.
  - apply Z.leb_gt. exact Hlo.
  - rewrite Z.geb_leb. apply Z.leb_gt. exact Hhi.
Qed.

Lemma rebalanced_position_in_range_witness :
  isOutOfRange
    (IndexedPosition.mk "0xp3" "0x1609" (Integral 1)
                        (TickBounds.mk 400 600) [examplePool])
    examplePool = false.
Proof.
  exact (@rebalanced_position_in_range exampleGlobals examplePool
           (IndexedPosition.mk "0xp3" "0x1609" (Integral 1)
                               (TickBounds.mk 400 600) [examplePool])
           eq_refl (Z.lt_le_incl 0 10 eq_refl) eq_refl).
Defined.

(** X4. All the ticks of one spacing bucket share their range: the range moves
    only when the tick crosses a multiple of the spacing. *)
Theorem computeTickRange_bucket (G : Globals)
  (currentTick otherTick feeTierIndex halfWidth spacing : Z) :
  FeeTierStep G feeTierIndex = Some spacing ->
  0 < spacing ->
  let rounded := currentTick / spacing * spacing in
  rounded <= otherTick < rounded + spacing ->
  computeTickRange G otherTick feeTierIndex halfWidth =
  computeTickRange G currentTick feeTierIndex halfWidth.
Proof.
  intros Hstep Hs rounded Hbucket.
  assert (Hq : otherTick / spacing = currentTick / spacing).
  { symmetry. apply Z.div_unique_pos with (r := otherTick - rounded);
      subst rounded; lia. }
  unfold computeTickRange. rewrite Hstep, Hq. reflexivity.
Qed.

Lemma computeTickRange_bucket_witness :
  computeTickRange exampleGlobals 509 1 10 =
  computeTickRange exampleGlobals 503 1 10.
Proof.
  refine (@computeTickRange_bucket exampleGlobals 503 509 1 10 10
            eq_refl eq_refl _).
  simpl. lia.
Defined.

(** X5. Nothing guards a negative half-width: with a spacing above zero the
    bounds come out in the wrong order. *)
Theorem computeTickRange_negative_halfWidth (G : Globals)
  (currentTick feeTierIndex halfWidth : Z) :
  let spacing :=
    match FeeTierStep G feeTierIndex with Some s => s | None => 1 end in
  let range := computeTickRange G currentTick feeTierIndex halfWidth in
  0 < spacing ->
  halfWidth < 0 ->
  upper range < lower range.
Proof.
  intros spacing range Hs Hw. subst range.
  rewrite computeTickRange_unfold. fold spacing.
  assert (halfWidth * spacing < 0) by nia.
  destruct (Z.eqb_spec (halfWidth * spacing) 0); simpl; lia.
Qed.

Lemma computeTickRange_negative_halfWidth_witness :
  let range := computeTickRange exampleGlobals 500 1 (-2) in
  upper range < lower range.
Proof.
  exact (@computeTickRange_negative_halfWidth exampleGlobals 500 1 (-2)
           eq_refl eq_refl).
Defined.

(** X6. A position whose bounds are equal or in the wrong order is out of
    range at every tick. *)
Theorem isOutOfRange_inverted (position : IndexedPosition.t)
  (pool : IndexedPool.t) :
  TickBounds.tickUpper (IndexedPosition.position position) <=
  TickBounds.tickLower (IndexedPosition.position position) ->
  isOutOfRange position pool = true.
Proof.
  intros Hinv. unfold isOutOfRange. cbv zeta.
  apply orb_true_iff.
  destruct (Z.leb_spec (IndexedPool.currentTick pool)
              (TickBounds.tickLower (IndexedPosition.position position)))
    as [Hle | Hgt]; [now left | right].
  rewrite Z.geb_leb. apply Z.leb_le. lia.
Qed.

Lemma isOutOfRange_inverted_witness :
  isOutOfRange
    (IndexedPosition.mk "0xp4" "0x1609" (Integral 1)
                        (TickBounds.mk 520 480) [examplePool])
    examplePool = true.
Proof.
  refine (@isOutOfRange_inverted
            (IndexedPosition.mk "0xp4" "0x1609" (Integral 1)
                                (TickBounds.mk 520 480) [examplePool])
            examplePool _).
  simpl. lia.
Defined.

(* ================================================================== *)
(** ** Further properties: counting and classifying events *)

Lemma Emits_tryCatch (Q : Event -> bool) (R : Type) (p : Prog R)
  (h : Error -> Prog R) :
  Emits Q p -> (forall e, Emits Q (h e)) -> Emits Q (tryCatch p h).
Proof.
  induction 1; intros Hh; simpl; try constructor; auto.
Qed.

Lemma Emits_forOf (Q : Event -> bool) (X : Type) (xs : list X)
  (body : X -> Prog unit) :
  (forall x, Emits Q (body x)) -> Emits Q (forOf xs body).
Proof.
  intros Hbody. induction xs as [ | x xs IH]; simpl.
  - constructor.
  - apply Emits_bind; auto.
Qed.

Lemma AtMost_le (Q : Event -> bool) (R : Type) (p : Prog R) (n m : nat) :
  AtMost Q n p -> (n <= m)%nat -> AtMost Q m p.
Proof.
  intros H. revert m.
  induction H as [n r | n e | n e k Hk IH | n e k HQ Hk IH
                  | n X c k Hk IH | n X c k HQ Hk IH]; intros m Hle.
  - constructor.
  - constructor.
  - destruct m as [ | m]; [lia | ].
    apply AtMost_Do_hit, IH. lia.
  - apply AtMost_Do_miss; auto.
  - destruct m as [ | m]; [lia | ].
    apply AtMost_Call_hit. intros r. apply IH. lia.
  - apply AtMost_Call_miss; auto.
Qed.

Lemma AtMost_bind (Q : Event -> bool) (R S : Type) (p : Prog R)
  (f : R -> Prog S) (n m k : nat) :
  AtMost Q n p -> (forall r, AtMost Q m (f r)) -> (n + m <= k)%nat ->
  AtMost Q k (bind p f).
Proof.
  intros Hp Hf. revert k.
  induction Hp as [n r | n e | n e p Hp IH | n e p HQ Hp IH
                   | n X c p Hp IH | n X c p HQ Hp IH]; intros k Hle; simpl.
  - apply AtMost_le with (n := m); [apply Hf | lia].
  - constructor.
  - destruct k as [ | k]; [lia | ].
    apply AtMost_Do_hit, IH. lia.
  - apply AtMost_Do_miss; auto.
  - destruct k as [ | k]; [lia | ].
    apply AtMost_Call_hit. intros r. apply IH. lia.
  - apply AtMost_Call_miss; auto.
Qed.

(** A program whose events all miss [Q] has no event that satisfies it. *)
Lemma Emits_AtMost (Q Q' : Event -> bool) (R : Type) (p : Prog R) (n : nat) :
  (forall e, Q' e = true -> Q e = false) -> Emits Q' p -> AtMost Q n p.
Proof.
  intros Hmiss. induction 1.
  - constructor.
  - constructor.
  - apply AtMost_Do_miss; auto.
  - apply AtMost_Call_miss; auto.
Qed.

Lemma run_atMost (Q : Event -> bool) (R : Type) (p : Prog R) (n : nat) :
  AtMost Q n p ->
  forall (o : Oracle) (t : Trace),
  exists d, snd (run p o t) = t ++ d /\ (List.length (filter Q d) <= n)%nat.
Proof.
  induction 1 as [n r | n e | n e k Hk IH | n e k HQ Hk IH
                  | n X c k Hk IH | n X c k HQ Hk IH]; intros o t; simpl.
  - exists []. rewrite app_nil_r. split; [reflexivity | simpl; lia].
  - exists []. rewrite app_nil_r. split; [reflexivity | simpl; lia].
  - destruct (IH o (t ++ [Effected e])) as [d [Hd Hlen]].
    exists (Effected e :: d). rewrite Hd, <- app_assoc.
    split; [reflexivity | ]. simpl.
    destruct (Q (Effected e)); simpl; lia.
  - destruct (IH o (t ++ [Effected e])) as [d [Hd Hlen]].
    exists (Effected e :: d). rewrite Hd, <- app_assoc.
    split; [reflexivity | ]. simpl. now rewrite HQ.
  - destruct (IH (o t X c) o (t ++ [Called c (o t X c)])) as [d [Hd Hlen]].
    exists (Called c (o t X c) :: d). rewrite Hd, <- app_assoc.
    split; [reflexivity | ]. simpl.
    destruct (Q (Called c (o t X c))); simpl; lia.
  - destruct (IH (o t X c) o (t ++ [Called c (o t X c)])) as [d [Hd Hlen]].
    exists (Called c (o t X c) :: d). rewrite Hd, <- app_assoc.
    split; [reflexivity | ]. simpl. now rewrite HQ.
Qed.

(** Events that all miss [Q] leave nothing in [filter Q]. *)
Lemma filter_none (Q Q' : Event -> bool) (d : Trace) :
  (forall e, Q' e = true -> Q e = false) ->
  forallb Q' d = true -> filter Q d = [].
Proof.
  intros Hmiss. induction d as [ | e d IH]; simpl; [reflexivity | ].
  intros Hall. apply andb_true_iff in Hall. destruct Hall as [He Hd].
  rewrite (Hmiss e He). auto.
Qed.

(** Proving [Emits Q p] and [AtMost Q n p] for a small program whose
    definition is unfolded: follow the program, branch by branch. *)
Ltac emits :=
  repeat first
    [ apply Emits_bigIntFrom
    | apply Emits_await; reflexivity
    | apply Emits_bind; [ | intros ]
    | match goal with
      | |- Emits _ (if ?b then _ else _) => destruct b
      | |- Emits _ (match ?x with (_, _) => _ end) => destruct x
      | |- Emits _ (match ?x with Some _ => _ | None => _ end) => destruct x
      end
    | constructor; try reflexivity ].

Ltac at_most :=
  simpl;
  repeat first
    [ apply AtMost_Ret
    | apply AtMost_Throw
    | apply AtMost_Do_miss; [reflexivity | ]
    | apply AtMost_Do_hit
    | apply AtMost_Call_miss; [intros; reflexivity | intros [? | ?]; simpl]
    | apply AtMost_Call_hit; intros [? | ?]; simpl
    | match goal with
      | |- AtMost _ _ (match ?x with (_, _) => _ end) => destruct x; simpl
      | |- context [bigIntFrom ?v] => destruct v; simpl
      | |- context [if ?b then _ else _] => destruct b; simpl
      end ].

Lemma submitTransaction_steps (G : Globals) (payload : Payload)
  (description : string) :
  Emits isRebalanceStep (submitTransaction G payload description).
Proof. unfold submitTransaction, perform. emits. Qed.

Lemma planLiquidity_steps (G : Globals) (A B : Z) (params : PlanParams.t)
  (allowSwap : bool) :
  Emits isRebalanceStep (planLiquidity G A B params allowSwap).
Proof.
  apply Emits_weaken with (Q := isPlanning); [ | apply planLiquidity_emits].
  intros [e | X c r]; [discriminate | ].
  destruct c; simpl; auto.
Qed.

Lemma rebalance_steps (G : Globals) (position : IndexedPosition.t) :
  Emits isRebalanceStep (rebalance G position).
Proof.
  pose proof (submitTransaction_steps G) as Hsubmit.
  pose proof (planLiquidity_steps G) as Hplan.
  unfold rebalance, finalPlan, addLiquidity, withdrawLiquidity, executeSwap,
    perform.
  destruct (IndexedPosition.pool position) as [ | pool rest].
  - emits.
  - repeat first
      [ apply Hsubmit
      | apply Hplan
      | apply Emits_bigIntFrom
      | apply Emits_await; reflexivity
      | apply Emits_bind; [ | intros ]
      | match goal with
        | |- Emits _ (if ?b then _ else _) => destruct b
        | |- Emits _ (match ?x with (_, _) => _ end) => destruct x
        | |- Emits _ (match ?x with Some _ => _ | None => _ end) =>
            destruct x
        end
      | constructor; try reflexivity ].
Qed.

(* ================================================================== *)
(** ** Further properties: transactions and the position source *)

(** X7. When [submitTransaction] returns, the transaction was built for the
    owner's address from the given payload, signed, submitted and
    confirmed, in this order; the hash returned is the one the submission
    gave, and it is logged after the confirmation. *)
Theorem submitTransaction_success (G : Globals) (o : Oracle) (t : Trace)
  (payload : Payload) (description hash : string) (t' : Trace) :
  run (submitTransaction G payload description) o t = (Returned hash, t') ->
  exists transaction,
    t' = t ++ [Called (BuildSimple (OWNER_ADDRESS G) payload) (Ok transaction);
               Called (SignAndSubmitTransaction transaction) (Ok hash);
               Called (WaitForTransaction hash) (Ok tt);
               Effected (ConsoleInfo (TxHash description hash))].
Proof.
  unfold submitTransaction, perform. simpl.
  repeat run_step o.
  all: intros H; inversion H; subst; clear H.
  match goal with u : unit |- _ => destruct u end.
  eexists. rewrite <- !app_assoc. reflexivity.
Qed.

Lemma submitTransaction_success_witness :
  exists transaction,
    [Called (BuildSimple "0xeb4c" "swap") (Ok "swap");
     Called (SignAndSubmitTransaction "swap") (Ok "0xswap");
     Called (WaitForTransaction "0xswap") (Ok tt);
     Effected (ConsoleInfo (TxHash "swap" "0xswap"))] =
    [] ++ [Called (BuildSimple (OWNER_ADDRESS exampleGlobals) "swap")
                  (Ok transaction);
           Called (SignAndSubmitTransaction transaction) (Ok "0xswap");
           Called (WaitForTransaction "0xswap") (Ok tt);
           Effected (ConsoleInfo (TxHash "swap" "0xswap"))].
Proof.
  exact (@submitTransaction_success exampleGlobals steadyOracle [] "swap"
           "swap" "0xswap" _ eq_refl).
Defined.

(** X8. [submitTransaction] throws in exactly three ways, each time the
    rejection of its last call, unchanged: the build is rejected; the
    transaction is built and its submission is rejected; or it is built,
    submitted, and the wait for the hash that the submission gave is
    rejected.  None of the three writes on the console.  So a transaction
    whose confirmation fails was submitted, and its hash is not logged. *)
Theorem submitTransaction_failure (G : Globals) (o : Oracle) (t : Trace)
  (payload : Payload) (description : string) (e : Error) (t' : Trace) :
  let build := BuildSimple (OWNER_ADDRESS G) payload in
  run (submitTransaction G payload description) o t = (Thrown e, t') <->
  exists reason : string,
    e = Rejected reason /\
    ((o t _ build = Fail reason /\
      t' = t ++ [Called build (Fail reason)]) \/
     (exists transaction,
        let submit := SignAndSubmitTransaction transaction in
        let t1 := t ++ [Called build (Ok transaction)] in
        o t _ build = Ok transaction /\
        o t1 _ submit = Fail reason /\
        t' = t1 ++ [Called submit (Fail reason)]) \/
     (exists transaction hash,
        let submit := SignAndSubmitTransaction transaction in
        let wait := WaitForTransaction hash in
        let t1 := t ++ [Called build (Ok transaction)] in
        let t2 := t1 ++ [Called submit (Ok hash)] in
        o t _ build = Ok transaction /\
        o t1 _ submit = Ok hash /\
        o t2 _ wait = Fail reason /\
        t' = t2 ++ [Called wait (Fail reason)])).
Proof.
  intros build. split.
  - unfold submitTransaction, perform. simpl. fold build.
    repeat run_step o.
    all: intros H; inversion H; subst; clear H.
    all: eexists; split; [reflexivity | ].
    + right. right. eexists _, _. cbv zeta.
      repeat split; solve [eassumption | reflexivity].
    + right. left. eexists. cbv zeta.
      repeat split; solve [eassumption | reflexivity].
    + left. split; reflexivity.
  - intros [reason [-> Hcases]].
    unfold submitTransaction, perform. simpl. fold build.
    destruct Hcases as [[Hbuild ->] | [Hsubmit | Hwait]].
    + now rewrite Hbuild.
    + destruct Hsubmit as [transaction [Hbuild [Hsubmit ->]]].
      rewrite Hbuild. simpl. now rewrite Hsubmit.
    + destruct Hwait as [transaction [hash [Hbuild [Hsubmit [Hwait ->]]]]].
      rewrite Hbuild. simpl. rewrite Hsubmit. simpl. now rewrite Hwait.
Qed.

Lemma submitTransaction_failure_witness :
  run (submitTransaction exampleGlobals "swap" "swap") stuckOracle [] =
  (Thrown (Rejected "timeout"),
   (([] ++ [Called (BuildSimple "0xeb4c" "swap") (Ok "swap")])
       ++ [Called (SignAndSubmitTransaction "swap") (Ok "0xswap")])
       ++ [Called (WaitForTransaction "0xswap") (Fail "timeout")]).
Proof.
  apply (proj2 (@submitTransaction_failure exampleGlobals stuckOracle []
                  "swap" "swap" (Rejected "timeout") _)).
  exists "timeout". split; [reflexivity | ].
  right. right. exists "swap", "0xswap". cbv zeta.
  repeat split; reflexivity.
Defined.

(** X9. [fetchPositions] asks once, for the monitored owner.  What it returns
    is the answer restricted, in the same order, to the positions whose
    pool id equals the target pool id up to the case of ASCII letters. *)
Theorem fetchPositions_spec (G : Globals) (o : Oracle) (t : Trace)
  (positions : list IndexedPosition.t) (t' : Trace) :
  run (fetchPositions G) o t = (Returned positions, t') ->
  exists result,
    t' = t ++ [Called (FetchAllPositionsByAddress (MONITORED_OWNER G))
                      (Ok result)] /\
    (forall position,
       In position positions <->
       In position result /\
       toLowerCase (IndexedPosition.poolId position) =
       toLowerCase (TARGET_POOL_ID G)) /\
    (exists keep, positions = filter keep result).
Proof.
  unfold fetchPositions. simpl.
  run_step o; intros H; inversion H; subst; clear H.
  eexists. split; [reflexivity | ]. split.
  - intros position. rewrite filter_In, String.eqb_eq. reflexivity.
  - eexists. reflexivity.
Qed.

Lemma fetchPositions_spec_witness :
  exists result,
    snd (run (fetchPositions exampleGlobals) steadyOracle []) =
    [] ++ [Called (FetchAllPositionsByAddress "0xEB4C") (Ok result)] /\
    (forall position,
       In position [examplePosition; orphanPosition] <->
       In position result /\
       toLowerCase (IndexedPosition.poolId position) = toLowerCase "0x1609") /\
    (exists keep, [examplePosition; orphanPosition] = filter keep result).
Proof.
  exact (@fetchPositions_spec exampleGlobals steadyOracle [] _ _ eq_refl).
Defined.

(* ================================================================== *)
(** ** Further properties: the planner *)

Lemma filter_anyEvent (d : Trace) : filter anyEvent d = d.
Proof. induction d as [ | e d IH]; simpl; congruence. Qed.

Lemma planLiquidity_at_most_one_quote (G : Globals) (A B : Z)
  (params : PlanParams.t) (allowSwap : bool) :
  AtMost isQuote 1 (planLiquidity G A B params allowSwap).
Proof. unfold planLiquidity. at_most. Qed.

Lemma planLiquidity_at_most_four_calls (G : Globals) (A B : Z)
  (params : PlanParams.t) (allowSwap : bool) :
  AtMost anyEvent 4 (planLiquidity G A B params allowSwap).
Proof. unfold planLiquidity. at_most. Qed.

(** X10. [planLiquidity] only asks: whatever the outside world answers, a run
    consists of at most four calls, all to the estimator or to the quote
    service, and at most one of them is a quote.  It writes nothing and
    submits nothing. *)
Theorem planLiquidity_only_asks (G : Globals) (o : Oracle) (t : Trace)
  (A B : Z) (params : PlanParams.t) (allowSwap : bool) :
  exists d,
    snd (run (planLiquidity G A B params allowSwap) o t) = t ++ d /\
    forallb isPlanning d = true /\
    (List.length d <= 4)%nat /\
    (List.length (filter isQuote d) <= 1)%nat.
Proof.
  destruct (run_emits (planLiquidity_emits G A B params allowSwap) o t)
    as [d [Hd Hall]].
  destruct (run_atMost
              (planLiquidity_at_most_four_calls G A B params allowSwap) o t)
    as [d4 [Hd4 Hfour]].
  destruct (run_atMost
              (planLiquidity_at_most_one_quote G A B params allowSwap) o t)
    as [d1 [Hd1 Hone]].
  rewrite Hd in Hd4, Hd1.
  apply app_inv_head in Hd4, Hd1. subst d4 d1.
  rewrite filter_anyEvent in Hfour.
  exists d. auto.
Qed.

(** X11. A [swapPlan] in a returned plan comes from a real shortfall: swaps
    were allowed, the first estimate exceeded the B balance, the quote was
    asked for exactly the difference, from currency A to currency B in the
    configured safe mode, the plan carries the quote's amounts and path,
    and the amount to swap is strictly below the A balance. *)
Theorem planLiquidity_swapPlan_origin (G : Globals) (o : Oracle) (t : Trace)
  (A B : Z) (params : PlanParams.t) (allowSwap : bool) (plan : Plan)
  (swap : SwapPlan.t) (t' : Trace) :
  run (planLiquidity G A B params allowSwap) o t = (Returned plan, t') ->
  swapPlan plan = Some swap ->
  allowSwap = true /\
  SwapPlan.amountIn swap < A /\
  exists requiredB quote,
    o t _ (EstCurrencyBAmountFromA params A) = Ok (Integral requiredB) /\
    B < requiredB /\
    o (t ++ [Called (EstCurrencyBAmountFromA params A)
                    (Ok (Integral requiredB))]) _
      (EstFromAmount (requiredB - B)
                     (PlanParams.currencyA params)
                     (PlanParams.currencyB params)
                     (SWAP_SAFE_MODE G)) = Ok quote /\
    Quote.amountIn quote = Integral (SwapPlan.amountIn swap) /\
    Quote.amountOut quote = Integral (SwapPlan.expectedOut swap) /\
    Quote.path quote = SwapPlan.path swap.
Proof.
  unfold planLiquidity. simpl.
  destruct (o t _ (EstCurrencyBAmountFromA params A))
    as [[requiredB | ] | ] eqn:Hest; simpl; try discriminate.
  destruct allowSwap; simpl.
  - destruct (requiredB >? B) eqn:Hshort; simpl.
    + match goal with |- context [o ?h _ (EstFromAmount ?a ?f ?g ?s)] =>
        destruct (o h _ (EstFromAmount a f g s)) as [quote | ] eqn:Hquote
      end; simpl; try discriminate.
      destruct (Quote.amountIn quote) as [amountIn | ] eqn:Hin; simpl;
        try discriminate.
      destruct (Quote.amountOut quote) as [amountOut | ] eqn:Hout; simpl;
        try discriminate.
      destruct (amountIn >=? A) eqn:Hge; simpl; try discriminate.
      assert (Hlt : amountIn < A).
      { rewrite Z.geb_leb in Hge. apply Z.leb_gt in Hge. exact Hge. }
      apply Z.gtb_lt in Hshort.
      repeat run_step o.
      all: intros H; inversion H; subst; clear H.
      all: simpl; intros Hswap; inversion Hswap; subst; clear Hswap; simpl.
      all: split; [reflexivity | split; [exact Hlt | ]].
      all: exists requiredB, quote; repeat split; auto.
    + repeat run_step o.
      all: intros H; inversion H; subst; discriminate.
  - repeat run_step o.
    all: intros H; inversion H; subst; discriminate.
Qed.

Lemma planLiquidity_swapPlan_origin_witness :
  true = true /\
  300 < 1000 /\
  exists requiredB quote,
    @steadyOracle [] _ (EstCurrencyBAmountFromA exampleParams 1000)
    = Ok (Integral requiredB) /\
    0 < requiredB /\
    @steadyOracle ([] ++ [Called (EstCurrencyBAmountFromA exampleParams 1000)
                                 (Ok (Integral requiredB))]) _
      (EstFromAmount (requiredB - 0) "0xfa1" "0xc2::coin::USDC" true)
    = Ok quote /\
    Quote.amountIn quote = Integral 300 /\
    Quote.amountOut quote = Integral 500 /\
    Quote.path quote = ["0x1609"].
Proof.
  exact (@planLiquidity_swapPlan_origin exampleGlobals steadyOracle [] 1000 0
           exampleParams true _ (SwapPlan.mk 300 500 ["0x1609"]) _
           eq_refl eq_refl).
Defined.

(** X12. Without a shortfall, allowing swaps changes nothing: when the first
    estimate is within the B balance, the runs of [planLiquidity] with and
    without [allowSwap] are the same, call for call. *)
Theorem planLiquidity_no_shortfall (G : Globals) (o : Oracle) (t : Trace)
  (A B : Z) (params : PlanParams.t) (requiredB : Z) :
  o t _ (EstCurrencyBAmountFromA params A) = Ok (Integral requiredB) ->
  requiredB <= B ->
  run (planLiquidity G A B params true) o t =
  run (planLiquidity G A B params false) o t.
Proof.
  intros Hest Hfits. unfold planLiquidity. simpl.
  rewrite Hest. simpl.
  assert (Hgt : (requiredB >? B) = false).
  { rewrite Z.gtb_ltb. apply Z.ltb_ge. exact Hfits. }
  now rewrite Hgt.
Qed.

Lemma planLiquidity_no_shortfall_witness :
  run (planLiquidity exampleGlobals 6 5 exampleParams true) steadyOracle [] =
  run (planLiquidity exampleGlobals 6 5 exampleParams false) steadyOracle [].
Proof.
  refine (@planLiquidity_no_shortfall exampleGlobals steadyOracle [] 6 5
            exampleParams 3 eq_refl _).
  lia.
Defined.

(** X13. The exceptions of [planLiquidity]: the insufficient-balance error, the
    failure of a [BigInt] conversion, or the rejection of its last call,
    passed on unchanged. *)
Theorem planLiquidity_errors (G : Globals) (o : Oracle) (t : Trace)
  (A B : Z) (params : PlanParams.t) (allowSwap : bool) (e : Error)
  (t' : Trace) :
  run (planLiquidity G A B params allowSwap) o t = (Thrown e, t') ->
  e = InsufficientBalance \/
  e = BigIntError \/
  exists (reason : string) (X : Type) (c : ext X) (d : Trace),
    e = Rejected reason /\
    t' = t ++ d ++ [Called c (Fail reason)].
Proof.
  unfold planLiquidity. simpl.
  repeat run_step o.
  all: intros H; inversion H; subst; clear H.
  all: try (left; reflexivity).
  all: try (right; left; reflexivity).
  all: right; right; eexists _, _, _.
  all: first
         [ exists (@nil Event); split; [reflexivity | ];
           rewrite <- ?app_assoc; reflexivity
         | eexists [_]; split; [reflexivity | ];
           rewrite <- ?app_assoc; reflexivity
         | eexists [_; _]; split; [reflexivity | ];
           rewrite <- ?app_assoc; reflexivity
         | eexists [_; _; _]; split; [reflexivity | ];
           rewrite <- ?app_assoc; reflexivity ].
Qed.

Lemma planLiquidity_errors_witness :
  InsufficientBalance = InsufficientBalance \/
  InsufficientBalance = BigIntError \/
  exists (reason : string) (X : Type) (c : ext X) (d : Trace),
    InsufficientBalance = Rejected reason /\
    snd (run (planLiquidity exampleGlobals 1000 0 exampleParams true)
             greedyOracle []) = [] ++ d ++ [Called c (Fail reason)].
Proof.
  exact (@planLiquidity_errors exampleGlobals greedyOracle [] 1000 0
           exampleParams true _ _ eq_refl).
Defined.

(* ================================================================== *)
(** ** Further properties: the orchestrator *)

Lemma planLiquidity_false_swapPlan (G : Globals) (o : Oracle) (t : Trace)
  (A B : Z) (params : PlanParams.t) (plan : Plan) (t' : Trace) :
  run (planLiquidity G A B params false) o t = (Returned plan, t') ->
  swapPlan plan = None.
Proof.
  unfold planLiquidity. simpl.
  repeat run_step o.
  all: intros H; inversion H; reflexivity.
Qed.

Lemma planLiquidity_at_most_none (Q : Event -> bool) (G : Globals) (A B : Z)
  (params : PlanParams.t) (allowSwap : bool) (n : nat) :
  (forall e, isPlanning e = true -> Q e = false) ->
  AtMost Q n (planLiquidity G A B params allowSwap).
Proof.
  intros Hmiss. apply Emits_AtMost with (Q' := isPlanning);
    [exact Hmiss | apply planLiquidity_emits].
Qed.

Lemma finalPlan_at_most_one_swap (G : Globals)
  (position : IndexedPosition.t) (pool : IndexedPool.t) :
  AtMost isSwapRequest 1 (finalPlan G position pool).
Proof.
  assert (Hplan : forall A B params allowSwap,
             AtMost isSwapRequest 0 (planLiquidity G A B params allowSwap)).
  { intros. apply planLiquidity_at_most_none.
    intros [e | X c r]; [discriminate | destruct c; simpl; auto]. }
  unfold finalPlan.
  apply AtMost_bind with (n := 0%nat) (m := 1%nat); [ | | lia].
  { unfold withdrawLiquidity, submitTransaction, perform. at_most. }
  intros [availableA availableB].
  apply AtMost_bind with (n := 0%nat) (m := 1%nat); [apply Hplan | | lia].
  intros initialPlan.
  destruct (swapPlan initialPlan) as [swap | ]; [ | constructor].
  apply AtMost_bind with (n := 1%nat) (m := 0%nat); [ | | lia].
  { unfold executeSwap, submitTransaction, perform. at_most. }
  intros _. apply Hplan.
Qed.

(** X14. When the part of [rebalance] before the deposit returns a plan,
    the plan carries no swap, and it came about in one of two ways.
    Either the initial plan, made with [allowSwap = true] on the amounts
    read for the position, had no swap and is the plan.  Or the initial
    plan had a swap, that swap was executed, and the plan is what
    [planLiquidity] returned next with [allowSwap = false] on the balances
    moved by the swap.  Either way the run asked for at most one swap
    payload. *)
Theorem finalPlan_without_swapPlan (G : Globals) (o : Oracle) (t : Trace)
  (position : IndexedPosition.t) (pool : IndexedPool.t) (plan : Plan)
  (t' : Trace) :
  run (finalPlan G position pool) o t = (Returned plan, t') ->
  let params := baseParams G pool in
  swapPlan plan = None /\
  (exists availableA availableB t1 initialPlan t2,
     run (withdrawLiquidity G position params) o t =
       (Returned (availableA, availableB), t1) /\
     run (planLiquidity G availableA availableB params true) o t1 =
       (Returned initialPlan, t2) /\
     ((swapPlan initialPlan = None /\ plan = initialPlan /\ t' = t2) \/
      (exists swap hash t3,
         swapPlan initialPlan = Some swap /\
         run (executeSwap G pool params swap) o t2 = (Returned hash, t3) /\
         run (planLiquidity G (availableA - SwapPlan.amountIn swap)
                              (availableB + SwapPlan.expectedOut swap)
                              params false) o t3 = (Returned plan, t')))) /\
  (exists d,
     t' = t ++ d /\ (List.length (filter isSwapRequest d) <= 1)%nat).
Proof.
  intros Hrun params.
  assert (Hbound : exists d,
             t' = t ++ d /\
             (List.length (filter isSwapRequest d) <= 1)%nat).
  { destruct (run_atMost (finalPlan_at_most_one_swap G position pool) o t)
      as [d [Hd Hone]].
    rewrite Hrun in Hd. now exists d. }
  revert Hrun. unfold finalPlan. fold params. rewrite run_bind.
  destruct (run (withdrawLiquidity G position params) o t)
    as [[[availableA availableB] | e] t1] eqn:Hwithdraw; [ | discriminate].
  rewrite run_bind.
  destruct (run (planLiquidity G availableA availableB params true) o t1)
    as [[initialPlan | e] t2] eqn:Hinitial; [ | discriminate].
  destruct (swapPlan initialPlan) as [swap | ] eqn:Hswap.
  - rewrite run_bind.
    destruct (run (executeSwap G pool params swap) o t2)
      as [[hash | e] t3] eqn:Hexec; [ | discriminate].
    intros Hfinal. split; [ | split; [ | exact Hbound]].
    + exact (planLiquidity_false_swapPlan _ _ _ _ _ _ Hfinal).
    + exists availableA, availableB, t1, initialPlan, t2.
      split; [reflexivity | split; [exact Hinitial | right]].
      exists swap, hash, t3. auto.
  - simpl. intros H. inversion H; subst; clear H.
    split; [exact Hswap | split; [ | exact Hbound]].
    exists availableA, availableB, t1, plan, t'.
    split; [reflexivity | split; [exact Hinitial | left; auto]].
Qed.

Lemma finalPlan_without_swapPlan_witness :
  let plan := {| swapPlan := None; depositA := 700; depositB := 350 |} in
  let t' := snd (run (finalPlan exampleGlobals examplePosition examplePool)
                     steadyOracle []) in
  swapPlan plan = None /\
  (exists availableA availableB t1 initialPlan t2,
     run (withdrawLiquidity exampleGlobals examplePosition exampleParams)
         steadyOracle [] = (Returned (availableA, availableB), t1) /\
     run (planLiquidity exampleGlobals availableA availableB
                        exampleParams true) steadyOracle t1 =
       (Returned initialPlan, t2) /\
     ((swapPlan initialPlan = None /\ plan = initialPlan /\ t' = t2) \/
      (exists swap hash t3,
         swapPlan initialPlan = Some swap /\
         run (executeSwap exampleGlobals examplePool exampleParams swap)
             steadyOracle t2 = (Returned hash, t3) /\
         run (planLiquidity exampleGlobals
                            (availableA - SwapPlan.amountIn swap)
                            (availableB + SwapPlan.expectedOut swap)
                            exampleParams false) steadyOracle t3 =
           (Returned plan, t')))) /\
  (exists d,
     t' = [] ++ d /\ (List.length (filter isSwapRequest d) <= 1)%nat).
Proof.
  exact (@finalPlan_without_swapPlan exampleGlobals steadyOracle []
           examplePosition examplePool _ _ eq_refl).
Defined.

Lemma rebalance_deposit_emits (G : Globals) (position : IndexedPosition.t)
  (pool : IndexedPool.t) (rest : list IndexedPool.t) :
  IndexedPosition.pool position = pool :: rest ->
  Emits (depositRequestOk G pool) (rebalance G position).
Proof.
  intros Hpool. unfold rebalance. rewrite Hpool.
  apply Emits_bind.
  - apply Emits_weaken with (Q := notDepositStep);
      [ | apply finalPlan_emits].
    intros [e | X c r]; [reflexivity | ].
    destruct c; simpl; auto. discriminate.
  - intros plan. unfold addLiquidity, submitTransaction, perform.
    destruct ((depositA plan =? 0) || (depositB plan =? 0)) eqn:Hguard.
    + emits.
    + apply orb_false_iff in Hguard. destruct Hguard as [HA HB].
      apply Emits_bind; [emits | intros _].
      apply Emits_bind; [ | intros; emits].
      apply Emits_await. intros r. simpl.
      now rewrite HA, HB, !Z.eqb_refl.
Qed.

(** X15. Whatever happens in a run of [rebalance], a deposit payload is only
    ever requested with two non-zero amounts, for the range that
    [computeTickRange] gives at the pool's tick with the configured
    half-width, and at the pool's tick and fee tier. *)
Theorem rebalance_deposit_request (G : Globals) (o : Oracle) (t : Trace)
  (position : IndexedPosition.t) (pool : IndexedPool.t)
  (rest : list IndexedPool.t) :
  IndexedPosition.pool position = pool :: rest ->
  let range := computeTickRange G (IndexedPool.currentTick pool)
                                (IndexedPool.feeTier pool)
                                (TICK_HALF_WIDTH G) in
  exists d,
    snd (run (rebalance G position) o t) = t ++ d /\
    forall args r,
      In (Called (CreatePoolTransactionPayload args) r) d ->
      CreatePoolArgs.currencyAAmount args <> 0 /\
      CreatePoolArgs.currencyBAmount args <> 0 /\
      CreatePoolArgs.tickLower args = lower range /\
      CreatePoolArgs.tickUpper args = upper range /\
      CreatePoolArgs.currentPriceTick args = IndexedPool.currentTick pool /\
      CreatePoolArgs.feeTierIndex args = IndexedPool.feeTier pool.
Proof.
  intros Hpool range.
  destruct (run_emits (rebalance_deposit_emits G position Hpool) o t)
    as [d [Hd Hall]].
  exists d. split; [exact Hd | ].
  intros args r Hin.
  rewrite forallb_forall in Hall. specialize (Hall _ Hin).
  simpl in Hall.
  repeat (apply andb_true_iff in Hall; destruct Hall as [Hall ?]).
  repeat match goal with
         | H : negb _ = true |- _ => apply negb_true_iff in H
         | H : (_ =? _) = true |- _ => apply Z.eqb_eq in H
         | H : (_ =? _) = false |- _ => apply Z.eqb_neq in H
         end.
  subst range. repeat split; assumption.
Qed.

Lemma rebalance_deposit_request_witness :
  exists d,
    snd (run (rebalance exampleGlobals examplePosition) steadyOracle [])
    = [] ++ d /\
    forall args r,
      In (Called (CreatePoolTransactionPayload args) r) d ->
      CreatePoolArgs.currencyAAmount args <> 0 /\
      CreatePoolArgs.currencyBAmount args <> 0 /\
      CreatePoolArgs.tickLower args = 400 /\
      CreatePoolArgs.tickUpper args = 600 /\
      CreatePoolArgs.currentPriceTick args = 500 /\
      CreatePoolArgs.feeTierIndex args = 1.
Proof.
  exact (@rebalance_deposit_request exampleGlobals steadyOracle []
           examplePosition examplePool [] eq_refl).
Defined.

(** X16. The liquidity is removed exactly when the position's liquidity is
    above zero and one of the two withdrawable amounts is.  Otherwise
    [rebalance] goes on with the amounts it read and asks for no removal;
    if so, the removal is requested for the whole liquidity and both
    amounts, with the owner as recipient. *)
Theorem withdrawLiquidity_condition (G : Globals) (o : Oracle) (t : Trace)
  (position : IndexedPosition.t) (params : PlanParams.t) (a b l : Z) :
  let fetch :=
    FetchTokensAmountByPositionId (IndexedPosition.objectId position) in
  let t1 := t ++ [Called fetch (Ok (Integral a, Integral b))] in
  let line :=
    Effected (ConsoleInfo
                (RemovingLiquidity (IndexedPosition.objectId position) l)) in
  let request :=
    RemoveLiquidityTransactionPayload
      (RemoveLiquidityArgs.mk (IndexedPosition.objectId position)
                              (PlanParams.currencyA params)
                              (PlanParams.currencyB params)
                              a b l (SLIPPAGE_PERCENT G) (OWNER_ADDRESS G)) in
  o t _ fetch = Ok (Integral a, Integral b) ->
  IndexedPosition.currentAmount position = Integral l ->
  (l <= 0 \/ (a <= 0 /\ b <= 0) ->
   run (withdrawLiquidity G position params) o t = (Returned (a, b), t1)) /\
  (0 < l -> 0 < a \/ 0 < b ->
   exists d,
     snd (run (withdrawLiquidity G position params) o t) =
     t1 ++ [line; Called request (o (t1 ++ [line]) _ request)] ++ d).
Proof.
  intros fetch t1 line request Hfetch Hamount.
  unfold withdrawLiquidity. simpl. fold fetch.
  rewrite Hfetch. simpl. rewrite Hamount. simpl. fold t1.
  split.
  - intros Hnone.
    assert (Hguard : (l >? 0) && ((a >? 0) || (b >? 0)) = false).
    { apply andb_false_iff. rewrite orb_false_iff, !Z.gtb_ltb, !Z.ltb_ge.
      tauto. }
    now rewrite Hguard.
  - intros Hl Hab.
    assert (Hguard : (l >? 0) && ((a >? 0) || (b >? 0)) = true).
    { apply andb_true_iff. rewrite orb_true_iff, !Z.gtb_ltb, !Z.ltb_lt.
      tauto. }
    rewrite Hguard. simpl. fold line. fold request.
    match goal with
    | |- exists d, snd (run ?p o ?h) = _ =>
        destruct (run_extends p o h) as [d Hd]
    end.
    exists d. rewrite Hd. now rewrite <- !app_assoc.
Qed.

Lemma withdrawLiquidity_condition_witness :
  exists d,
    snd (run (withdrawLiquidity exampleGlobals examplePosition exampleParams)
             steadyOracle []) =
    ([] ++ [Called (FetchTokensAmountByPositionId "0xp1")
                   (Ok (Integral 1000, Integral 0))]) ++
    [Effected (ConsoleInfo (RemovingLiquidity "0xp1" 12345));
     Called (RemoveLiquidityTransactionPayload
               (RemoveLiquidityArgs.mk "0xp1" "0xfa1" "0xc2::coin::USDC"
                                       1000 0 12345 (1 # 10) "0xeb4c"))
            (Ok "remove")] ++ d.
Proof.
  refine (proj2 (@withdrawLiquidity_condition exampleGlobals steadyOracle []
                   examplePosition exampleParams 1000 0 12345
                   eq_refl eq_refl) _ _).
  - lia.
  - left. lia.
Defined.

(** X17. When the planning of a rebalance throws, after the withdrawal or after
    the swap, [rebalance] throws the same exception at the same point:
    nothing is rolled back and no step of a deposit is made. *)
Theorem rebalance_planning_failure (G : Globals) (o : Oracle) (t : Trace)
  (position : IndexedPosition.t) (pool : IndexedPool.t)
  (rest : list IndexedPool.t) (e : Error) (t' : Trace) :
  IndexedPosition.pool position = pool :: rest ->
  run (finalPlan G position pool) o t = (Thrown e, t') ->
  run (rebalance G position) o t = (Thrown e, t') /\
  exists d, t' = t ++ d /\ forallb notDepositStep d = true.
Proof.
  intros Hpool Hplan. split.
  - unfold rebalance. now rewrite Hpool, run_bind, Hplan.
  - destruct (run_emits (finalPlan_emits G position pool) o t)
      as [d [Hd Hall]].
    rewrite Hplan in Hd. now exists d.
Qed.

Lemma rebalance_planning_failure_witness :
  exists t',
    run (rebalance exampleGlobals examplePosition) greedyOracle [] =
    (Thrown InsufficientBalance, t') /\
    exists d, t' = [] ++ d /\ forallb notDepositStep d = true.
Proof.
  eexists.
  exact (@rebalance_planning_failure exampleGlobals greedyOracle []
           examplePosition examplePool [] _ _ eq_refl eq_refl).
Defined.

(** Counting over [rebalance]: the bounds of its five blocks add up. *)
Lemma rebalance_at_most (Q : Event -> bool) (G : Globals)
  (position : IndexedPosition.t) (w p s q a : nat) :
  Q (Effected (ConsoleWarn (NoPoolData (IndexedPosition.objectId position))))
    = false ->
  (forall params, AtMost Q w (withdrawLiquidity G position params)) ->
  (forall A B params, AtMost Q p (planLiquidity G A B params true)) ->
  (forall pool params swap, AtMost Q s (executeSwap G pool params swap)) ->
  (forall A B params, AtMost Q q (planLiquidity G A B params false)) ->
  (forall pool params plan, AtMost Q a (addLiquidity G pool params plan)) ->
  AtMost Q (w + p + s + q + a) (rebalance G position).
Proof.
  intros Hwarn Hw Hp Hs Hq Ha. unfold rebalance.
  destruct (IndexedPosition.pool position) as [ | pool rest].
  - unfold perform. apply AtMost_Do_miss; [exact Hwarn | constructor].
  - apply AtMost_bind with (n := (w + p + s + q)%nat) (m := a);
      [ | intros; apply Ha | lia].
    unfold finalPlan.
    apply AtMost_bind with (n := w) (m := (p + s + q)%nat);
      [apply Hw | | lia].
    intros [availableA availableB].
    apply AtMost_bind with (n := p) (m := (s + q)%nat);
      [apply Hp | | lia].
    intros initialPlan.
    destruct (swapPlan initialPlan) as [swap | ]; [ | constructor].
    apply AtMost_bind with (n := s) (m := q); [apply Hs | | lia].
    intros _. apply Hq.
Qed.

(** X18. A run of [rebalance] reads the withdrawable amounts at most once, asks
    for at most one quote, and submits at most three transactions,
    whatever the outside world answers. *)
Theorem rebalance_bounded (G : Globals) (o : Oracle) (t : Trace)
  (position : IndexedPosition.t) :
  exists d,
    snd (run (rebalance G position) o t) = t ++ d /\
    (List.length (filter isFetchAmounts d) <= 1)%nat /\
    (List.length (filter isQuote d) <= 1)%nat /\
    (List.length (filter isSubmission d) <= 3)%nat.
Proof.
  assert (Hfetch : AtMost isFetchAmounts (1 + 0 + 0 + 0 + 0)
                          (rebalance G position)).
  { apply rebalance_at_most; try reflexivity; intros.
    - unfold withdrawLiquidity, submitTransaction, perform. at_most.
    - apply planLiquidity_at_most_none.
      intros [e | X c r]; [discriminate | destruct c; simpl; auto].
    - unfold executeSwap, submitTransaction, perform. at_most.
    - apply planLiquidity_at_most_none.
      intros [e | X c r]; [discriminate | destruct c; simpl; auto].
    - unfold addLiquidity, submitTransaction, perform. at_most. }
  assert (Hquote : AtMost isQuote (0 + 1 + 0 + 0 + 0)
                          (rebalance G position)).
  { apply rebalance_at_most; try reflexivity; intros.
    - unfold withdrawLiquidity, submitTransaction, perform. at_most.
    - apply planLiquidity_at_most_one_quote.
    - unfold executeSwap, submitTransaction, perform. at_most.
    - apply Emits_AtMost with (Q' := isEstimate);
        [ | apply planLiquidity_without_swap_emits].
      intros [e | X c r]; [discriminate | destruct c; simpl; auto;
                                          discriminate].
    - unfold addLiquidity, submitTransaction, perform. at_most. }
  assert (Hsubmit : AtMost isSubmission (1 + 0 + 1 + 0 + 1)
                           (rebalance G position)).
  { apply rebalance_at_most; try reflexivity; intros.
    - unfold withdrawLiquidity, submitTransaction, perform. at_most.
    - apply planLiquidity_at_most_none.
      intros [e | X c r]; [discriminate | destruct c; simpl; auto].
    - unfold executeSwap, submitTransaction, perform. at_most.
    - apply planLiquidity_at_most_none.
      intros [e | X c r]; [discriminate | destruct c; simpl; auto].
    - unfold addLiquidity, submitTransaction, perform. at_most. }
  destruct (run_atMost Hfetch o t) as [d [Hd Hone]].
  destruct (run_atMost Hquote o t) as [d1 [Hd1 Hq]].
  destruct (run_atMost Hsubmit o t) as [d2 [Hd2 Hthree]].
  rewrite Hd in Hd1, Hd2. apply app_inv_head in Hd1, Hd2. subst d1 d2.
  exists d. simpl in *. auto.
Qed.

(* ================================================================== *)
(** ** Further properties: the monitor and the loop *)

(** X20. [processPosition] leaves a position alone, with no call and no console
    line, when its liquidity is zero or the pool's tick is strictly inside
    its range; when the liquidity is not zero and the tick is at or beyond
    a bound, it writes the out-of-range line and runs [rebalance]. *)
Theorem processPosition_cases (G : Globals) (o : Oracle) (t : Trace)
  (position : IndexedPosition.t) (pool : IndexedPool.t)
  (rest : list IndexedPool.t) (l : Z) :
  let tick := IndexedPool.currentTick pool in
  let tickLower := TickBounds.tickLower (IndexedPosition.position position) in
  let tickUpper := TickBounds.tickUpper (IndexedPosition.position position) in
  IndexedPosition.pool position = pool :: rest ->
  IndexedPosition.currentAmount position = Integral l ->
  (l = 0 \/ tickLower < tick < tickUpper ->
   run (processPosition G position) o t = (Returned tt, t)) /\
  (l <> 0 -> tick <= tickLower \/ tickUpper <= tick ->
   run (processPosition G position) o t =
   run (rebalance G position) o
       (t ++ [Effected (ConsoleInfo
                          (OutOfRange (IndexedPosition.objectId position)))])).
Proof.
  intros tick tickLower tickUpper Hpool Hamount.
  unfold processPosition. rewrite Hpool, Hamount. simpl.
  unfold isOutOfRange. fold tick tickLower tickUpper. cbv zeta.
  split.
  - intros [-> | [Hlo Hhi]]; [reflexivity | ].
    destruct (l =? 0); [reflexivity | ].
    assert (Hin : (tick <=? tickLower) || (tick >=? tickUpper) = false).
    { apply orb_false_iff. rewrite Z.geb_leb, !Z.leb_gt. lia. }
    now rewrite Hin.
  - intros Hl Hout.
    destruct (Z.eqb_spec l 0); [contradiction | ].
    assert (Hin : (tick <=? tickLower) || (tick >=? tickUpper) = true).
    { apply orb_true_iff. rewrite Z.geb_leb, !Z.leb_le. lia. }
    now rewrite Hin.
Qed.

Lemma processPosition_cases_witness :
  run (processPosition exampleGlobals activePosition) steadyOracle [] =
  (Returned tt, []).
Proof.
  refine (proj1 (@processPosition_cases exampleGlobals steadyOracle []
                   activePosition examplePool [] 12345 eq_refl eq_refl) _).
  right. simpl. lia.
Defined.

(** X21. A position that makes [processPosition] throw ends the loop over the
    positions: the exception leaves the loop at once and the positions
    after it are not looked at. *)
Theorem forOf_aborts (G : Globals) (o : Oracle) (t : Trace)
  (before after : list IndexedPosition.t) (position : IndexedPosition.t)
  (t1 : Trace) (e : Error) (t2 : Trace) :
  run (forOf before (processPosition G)) o t = (Returned tt, t1) ->
  run (processPosition G position) o t1 = (Thrown e, t2) ->
  run (forOf (before ++ position :: after) (processPosition G)) o t =
  (Thrown e, t2).
Proof.
  revert t.
  induction before as [ | first before IH]; intros t Hbefore Hthrows; simpl.
  - simpl in Hbefore. inversion Hbefore; subst.
    now rewrite run_bind, Hthrows.
  - simpl in Hbefore. rewrite run_bind in Hbefore. rewrite run_bind.
    destruct (run (processPosition G first) o t) as [[[] | e'] t'];
      [ | discriminate].
    now apply IH.
Qed.

Lemma forOf_aborts_witness :
  run (forOf ([activePosition] ++ brokenPosition :: [examplePosition])
             (processPosition exampleGlobals)) steadyOracle [] =
  (Thrown BigIntError, []).
Proof.
  exact (@forOf_aborts exampleGlobals steadyOracle [] [activePosition]
           [examplePosition] brokenPosition [] BigIntError []
           eq_refl eq_refl).
Defined.

(** X22. When the list of positions cannot be read, the cycle logs the
    rejection and sleeps; it calls nothing else. *)
Theorem pollCycle_fetch_rejected (G : Globals) (o : Oracle) (t : Trace)
  (reason : string) :
  let fetch := FetchAllPositionsByAddress (MONITORED_OWNER G) in
  o t _ fetch = Fail reason ->
  run (pollCycle G) o t =
  (Returned tt,
   t ++ [Called fetch (Fail reason);
         Effected (ConsoleError (CycleFailed (Rejected reason)));
         Effected (Sleep (POLL_INTERVAL_MS G))]).
Proof.
  intros fetch Hfetch.
  unfold pollCycle, fetchPositions, perform. simpl. fold fetch.
  rewrite Hfetch. simpl. now rewrite <- !app_assoc.
Qed.

Lemma pollCycle_fetch_rejected_witness :
  run (pollCycle exampleGlobals) offlineOracle [] =
  (Returned tt,
   [] ++ [Called (FetchAllPositionsByAddress "0xEB4C") (Fail "offline");
          Effected (ConsoleError (CycleFailed (Rejected "offline")));
          Effected (Sleep 60000)]).
Proof.
  exact (@pollCycle_fetch_rejected exampleGlobals offlineOracle [] "offline"
           eq_refl).
Defined.

Lemma processPosition_never_sleeps (G : Globals)
  (position : IndexedPosition.t) :
  Emits notSleep (processPosition G position).
Proof.
  unfold processPosition, perform.
  destruct (IndexedPosition.pool position) as [ | pool rest];
    [constructor | ].
  apply Emits_bind; [apply Emits_bigIntFrom | intros currentAmount].
  destruct (currentAmount =? 0); [constructor | ].
  destruct (isOutOfRange position pool); [ | constructor].
  apply Emits_bind; [emits | intros _].
  apply Emits_weaken with (Q := isRebalanceStep);
    [ | apply rebalance_steps].
  intros [[ | | | ] | X c r]; simpl; auto.
Qed.

Lemma pollCycle_sleeps_once (G : Globals) (o : Oracle) (t : Trace) :
  exists d,
    run (pollCycle G) o t = (Returned tt, t ++ d) /\
    List.length (filter isSleep d) = 1%nat.
Proof.
  unfold pollCycle. rewrite run_bind.
  set (guarded :=
         tryCatch
           (positions <- fetchPositions G;;
            forOf positions (processPosition G))
           (fun error => perform (ConsoleError (CycleFailed error)))).
  assert (Hquiet : Emits notSleep guarded).
  { subst guarded. apply Emits_tryCatch.
    - apply Emits_bind.
      + unfold fetchPositions. emits.
      + intros positions. apply Emits_forOf.
        apply processPosition_never_sleeps.
    - intros e. unfold perform. emits. }
  assert (Hreturns : exists t1, run guarded o t = (Returned tt, t1)).
  { subst guarded. rewrite run_tryCatch.
    match goal with |- context [run ?p o t] =>
      destruct (run p o t) as [[[] | e] t1] end; simpl; eauto. }
  destruct Hreturns as [t1 Hrun].
  destruct (run_emits Hquiet o t) as [d [Hd Hall]].
  rewrite Hrun in Hd. simpl in Hd. subst t1.
  rewrite Hrun. simpl.
  exists (d ++ [Effected (Sleep (POLL_INTERVAL_MS G))]).
  rewrite app_assoc. split; [reflexivity | ].
  rewrite filter_app.
  rewrite (@filter_none isSleep notSleep d); [reflexivity | | exact Hall].
  intros e He. unfold notSleep in He. now apply negb_true_iff in He.
Qed.

(** X25. The loop heals itself: the first [n] turns of [main] always return,
    whatever failed inside them, and each turn sleeps exactly once. *)
Theorem main_turns (G : Globals) (n : nat) (o : Oracle) (t : Trace) :
  exists d,
    run (main G n) o t = (Returned tt, t ++ d) /\
    List.length (filter isSleep d) = n.
Proof.
  assert (Hcycles : forall t0, exists d,
             run (pollCycles G n) o t0 = (Returned tt, t0 ++ d) /\
             List.length (filter isSleep d) = n).
  { induction n as [ | n IH]; intros t0; cbn [pollCycles].
    - exists []. simpl. now rewrite app_nil_r.
    - rewrite run_bind.
      destruct (pollCycle_sleeps_once G o t0) as [d1 [Hrun1 Hone]].
      rewrite Hrun1.
      destruct (IH (t0 ++ d1)) as [d2 [Hrun2 Hn]].
      rewrite Hrun2. exists (d1 ++ d2).
      rewrite app_assoc. split; [reflexivity | ].
      rewrite filter_app, length_app. lia. }
  unfold main, perform. simpl.
  destruct (Hcycles (t ++ [Effected (ConsoleInfo Starting)])) as [d [Hrun Hn]].
  rewrite Hrun. exists (Effected (ConsoleInfo Starting) :: d).
  rewrite <- app_assoc. split; [reflexivity | exact Hn].
Qed.

(** X23. An exception anywhere in the loop over the positions is caught at the
    end of the cycle: the cycle logs it, sleeps and returns, so the next
    cycle takes place. *)
Theorem pollCycle_catches (G : Globals) (o : Oracle) (t : Trace)
  (positions : list IndexedPosition.t) (t1 : Trace) (e : Error)
  (t2 : Trace) :
  run (fetchPositions G) o t = (Returned positions, t1) ->
  run (forOf positions (processPosition G)) o t1 = (Thrown e, t2) ->
  run (pollCycle G) o t =
  (Returned tt,
   t2 ++ [Effected (ConsoleError (CycleFailed e));
          Effected (Sleep (POLL_INTERVAL_MS G))]).
Proof.
  intros Hfetch Hloop.
  unfold pollCycle. rewrite run_bind, run_tryCatch, run_bind.
  rewrite Hfetch, Hloop. unfold perform. simpl.
  now rewrite <- app_assoc.
Qed.

Lemma pollCycle_catches_witness :
  exists t2,
    run (pollCycle exampleGlobals) greedyOracle [] =
    (Returned tt,
     t2 ++ [Effected (ConsoleError (CycleFailed InsufficientBalance));
            Effected (Sleep 60000)]).
Proof.
  eexists.
  exact (@pollCycle_catches exampleGlobals greedyOracle [] _ _ _ _
           eq_refl eq_refl).
Defined.

(** X19. When both sides of the final plan are non-zero, [rebalance] goes on
    to the deposit: it writes the line and requests the payload with
    exactly the plan's two amounts, the pool's fee tier and tick, the
    target range and the configured slippage. *)
Theorem rebalance_deposits_plan (G : Globals) (o : Oracle) (t : Trace)
  (position : IndexedPosition.t) (pool : IndexedPool.t)
  (rest : list IndexedPool.t) (plan : Plan) (t' : Trace) :
  let params := baseParams G pool in
  let line :=
    Effected (ConsoleInfo
                (AddingLiquidity
                   (depositA plan)
                   (TokenInfo.symbol (IndexedPool.token1Info pool))
                   (depositB plan)
                   (TokenInfo.symbol (IndexedPool.token2Info pool)))) in
  let request :=
    CreatePoolTransactionPayload
      (CreatePoolArgs.mk (PlanParams.currencyA params)
                         (PlanParams.currencyB params)
                         (depositA plan) (depositB plan)
                         (IndexedPool.feeTier pool)
                         (IndexedPool.currentTick pool)
                         (PlanParams.tickLower params)
                         (PlanParams.tickUpper params)
                         (SLIPPAGE_PERCENT G)) in
  IndexedPosition.pool position = pool :: rest ->
  run (finalPlan G position pool) o t = (Returned plan, t') ->
  depositA plan <> 0 ->
  depositB plan <> 0 ->
  exists d,
    snd (run (rebalance G position) o t) =
    t' ++ [line; Called request (o (t' ++ [line]) _ request)] ++ d.
Proof.
  intros params line request Hpool Hplan HA HB.
  unfold rebalance. rewrite Hpool, run_bind, Hplan.
  unfold addLiquidity.
  apply Z.eqb_neq in HA, HB. rewrite HA, HB.
  unfold perform. simpl. fold params. fold line. fold request.
  match goal with
  | |- exists d, snd (run ?p o ?h) = _ =>
      destruct (run_extends p o h) as [d Hd]
  end.
  exists d. rewrite Hd. now rewrite <- !app_assoc.
Qed.

Lemma rebalance_deposits_plan_witness :
  exists t' d,
    snd (run (rebalance exampleGlobals examplePosition) steadyOracle []) =
    t' ++ [Effected (ConsoleInfo (AddingLiquidity 700 "USD1" 350 "USDC"));
           Called (CreatePoolTransactionPayload
                     (CreatePoolArgs.mk "0xfa1" "0xc2::coin::USDC" 700 350
                                        1 500 400 600 (1 # 10)))
                  (Ok "create")] ++ d.
Proof.
  eexists.
  refine (@rebalance_deposits_plan exampleGlobals steadyOracle []
            examplePosition examplePool []
            {| swapPlan := None; depositA := 700; depositB := 350 |} _
            eq_refl eq_refl _ _); simpl; lia.
Defined.
